(** * getPDB: the resolution-and-selection pipeline of [getPDB.py]

    A shallow embedding of the four pipeline stages of [getPDB.py]
    (identifier resolver, cross-reference mapper, quality filter, best
    structure selector) and the properties of them that the specification
    states; then of the target normalizer, of the part of [main] that
    chains the stages, and of the downloader, with further properties of
    all of them.

    Conventions of the embedding.
    - A decoded JSON document is a Python value ([value]); the operations
      the script applies to such values ([in], [x[k]], [x[0]], [.get],
      truth value, iteration) are given with the exceptions Python raises
      when the value has another shape.
    - Exceptions that no [except] clause of the script catches end the
      function: a function that may raise returns [res A].
    - The network is an oracle: the nth request of a stage is answered by a
      [reply], which is either one of the two exceptions the script
      catches or a decoded body.
    - Numbers are rationals.  The script only compares resolutions
      ([<=] in the filter, [<] inside [min]); on finite floats and ints these
      comparisons agree with the order of the rationals they denote.
    - The dicts handed from the filter to the selector live in a store
      ([heap]); a Python list of dicts is a list of addresses, so that two
      lists can share a record.
    - Text is a string of code points below 256.
    - The file system of the downloader is a map from paths to texts; an
      operation on it that fails raises [OSError] and leaves it as it
      was. *)

From Stdlib Require Import QArith Ascii String.
From Stdlib Require OrderedTypeEx Sorted.
From stdpp Require Import gmap strings list fin_maps functions.
From stdpp Require pretty.

Set Warnings "-register-all".
Close Scope Q_scope.
Local Open Scope string_scope.
Local Open Scope list_scope.

(** ** Python values and exceptions *)

Inductive value : Type :=
  | VNone
  | VBool (b : bool)
  | VNum (q : Q)
  | VStr (s : string)
  | VList (l : list value)
  | VDict (d : list (string * value)).

(** The exceptions that escape the script's [try] blocks. *)
Inductive exn : Type :=
  | AttributeError
  | TypeError
  | KeyError
  | IndexError.

Inductive res (A : Type) : Type :=
  | Ok (a : A)
  | Raise (e : exn).
Arguments Ok {A} a.
Arguments Raise {A} e.

#[global] Instance res_ret : MRet res := fun _ a => Ok a.
#[global] Instance res_bind : MBind res := fun _ _ k m =>
  match m with
  | Ok a => k a
  | Raise e => Raise e
  end.

(** What a request can come back with: the two exceptions named in the
    [except] clauses, or the decoded body. *)
Inductive reply : Type :=
  | RequestException
  | JSONDecodeError
  | Json (body : value).

(** [d.get(k)] on the entries of a dict. *)
Fixpoint assoc (k : string) (d : list (string * value)) : option value :=
  match d with
  | [] => None
  | (k', v) :: d' => if String.eqb k' k then Some v else assoc k d'
  end.

(** [x in s] for two strings. *)
Fixpoint is_substring (x s : string) : bool :=
  String.prefix x s ||
  match s with
  | EmptyString => false
  | String _ s' => is_substring x s'
  end.

Definition is_str (k : string) (v : value) : bool :=
  match v with
  | VStr s => String.eqb s k
  | _ => false
  end.

(** Truth value of a Python object. *)
Definition truthy (v : value) : bool :=
  match v with
  | VNone => false
  | VBool b => b
  | VNum q => negb (Qeq_bool q 0)
  | VStr s => negb (String.eqb s "")
  | VList l => negb (Nat.eqb (length l) 0)
  | VDict d => negb (Nat.eqb (length d) 0)
  end.

(** [a or b]. *)
Definition py_or (a b : value) : value :=
  if truthy a then a else b.

(** ["k" in c]. *)
Definition py_in (k : string) (c : value) : res bool :=
  match c with
  | VDict d => Ok (bool_decide (is_Some (assoc k d)))
  | VList l => Ok (existsb (is_str k) l)
  | VStr s => Ok (is_substring k s)
  | VNone | VBool _ | VNum _ => Raise TypeError
  end.

(** [c["k"]]. *)
Definition py_item (c : value) (k : string) : res value :=
  match c with
  | VDict d =>
      match assoc k d with
      | Some v => Ok v
      | None => Raise KeyError
      end
  | _ => Raise TypeError
  end.

(** [c[0]].  The keys of a decoded object are strings, so [0] is never a
    key of a dict. *)
Definition py_item0 (c : value) : res value :=
  match c with
  | VList (x :: _) => Ok x
  | VList [] => Raise IndexError
  | VStr (String a _) => Ok (VStr (String a EmptyString))
  | VStr EmptyString => Raise IndexError
  | VDict _ => Raise KeyError
  | VNone | VBool _ | VNum _ => Raise TypeError
  end.

(** [c.get("k", default)]. *)
Definition py_get (c : value) (k : string) (default : value) : res value :=
  match c with
  | VDict d =>
      match assoc k d with
      | Some v => Ok v
      | None => Ok default
      end
  | _ => Raise AttributeError
  end.

Fixpoint chars (s : string) : list value :=
  match s with
  | EmptyString => []
  | String a s' => VStr (String a EmptyString) :: chars s'
  end.

(** The items a [for] loop over [c] visits. *)
Definition py_iter (c : value) : res (list value) :=
  match c with
  | VList l => Ok l
  | VStr s => Ok (chars s)
  | VDict d => Ok (map (fun kv => VStr (fst kv)) d)
  | VNone | VBool _ | VNum _ => Raise TypeError
  end.

(** [v <= bound] for a float [bound]; a bool is the int 0 or 1. *)
Definition py_le (v : value) (bound : Q) : res bool :=
  match v with
  | VNum q => Ok (Qle_bool q bound)
  | VBool b => Ok (Qle_bool (if b then 1%Q else 0%Q) bound)
  | _ => Raise TypeError
  end.

(** [range(0, stop, step)] and [l[i:j]]. *)
Definition py_range (stop step : nat) : list nat :=
  map (fun k => k * step) (seq 0 ((stop + step - 1) / step)).

Definition slice {A : Type} (l : list A) (i j : nat) : list A :=
  take (j - i) (drop i l).

(** ** Configuration *)

Definition MAX_RESOLUTION : Q := 3%Q.
Definition EXPERIMENTAL_METHODS : list string := ["X-RAY DIFFRACTION"].

(** ** QualityFilter: [filter_pdbs_by_quality] *)

(** The body of the loop over [data["entries"]] (lines 198 to 202):
    [high_quality_pdbs] is threaded through. *)
Definition check_entry (entry : value) (high_quality_pdbs : list value)
  : res (list value) :=
  match entry with
  | VNone => Ok high_quality_pdbs
  | _ =>
      exptl ← py_get entry "exptl" VNone;
      first ← py_item0 (py_or exptl (VList [VDict []]));
      method ← py_get first "method" VNone;
      info ← py_get entry "rcsb_entry_info" (VDict []);
      combined ← py_get info "resolution_combined" VNone;
      resolution ← py_item0 (py_or combined (VList [VNone]));
      accept ←
        (if existsb (fun m => is_str m method) EXPERIMENTAL_METHODS then
           match resolution with
           | VNone => Ok false
           | _ => py_le resolution MAX_RESOLUTION
           end
         else Ok false);
      if (accept : bool) then
        rcsb_id ← py_item entry "rcsb_id";
        Ok (high_quality_pdbs ++
            [VDict [("pdb_id", rcsb_id); ("method", method);
                    ("resolution", resolution)]])
      else Ok high_quality_pdbs
  end.

Fixpoint check_entries (entries : list value) (high_quality_pdbs : list value)
  : res (list value) :=
  match entries with
  | [] => Ok high_quality_pdbs
  | entry :: rest =>
      high_quality_pdbs ← check_entry entry high_quality_pdbs;
      check_entries rest high_quality_pdbs
  end.

(** The test of line 192, ["errors" in results and results["errors"]]. *)
Definition has_errors (results : value) : res bool :=
  present ← py_in "errors" results;
  if (present : bool) then
    errors ← py_item results "errors";
    Ok (truthy errors)
  else Ok false.

(** The message printed at line 193, [results['errors'][0]['message']]. *)
Definition error_message (results : value) : res value :=
  errors ← py_item results "errors";
  first ← py_item0 errors;
  py_item first "message".

(** Lines 191 to 202 for a decoded body. *)
Definition handle_results (results : value) (high_quality_pdbs : list value)
  : res (list value) :=
  failed ← has_errors results;
  if (failed : bool) then
    _ ← error_message results;
    Ok high_quality_pdbs
  else
    data ← py_get results "data" VNone;
    has_entries ← (if truthy data then py_in "entries" data else Ok false);
    if (has_entries : bool) then
      entries ← py_item data "entries";
      entries ← py_iter entries;
      check_entries entries high_quality_pdbs
    else Ok high_quality_pdbs.

(** One turn of the loop of line 177: the [try] and its [except]. *)
Definition query_batch (r : reply) (high_quality_pdbs : list value)
  : res (list value) :=
  match r with
  | RequestException | JSONDecodeError => Ok high_quality_pdbs
  | Json results => handle_results results high_quality_pdbs
  end.

(** The loop of line 177; [post n batch] is the reply to the nth request,
    whose variables are [{"pdb_ids": batch}]. *)
Fixpoint query_batches (post : nat -> list string -> reply) (n : nat)
    (pdb_id_batches : list (list string)) (high_quality_pdbs : list value)
  : res (list value) :=
  match pdb_id_batches with
  | [] => Ok high_quality_pdbs
  | batch :: rest =>
      high_quality_pdbs ← query_batch (post n batch) high_quality_pdbs;
      query_batches post (S n) rest high_quality_pdbs
  end.

Definition batches {A : Type} (batch_size : nat) (ids : list A)
  : list (list A) :=
  map (fun i => slice ids i (i + batch_size))
      (py_range (length ids) batch_size).

Definition filter_pdbs_by_quality (post : nat -> list string -> reply)
    (pdb_ids : list string) : res (list value) :=
  let high_quality_pdbs := [] in
  let batch_size := 500 in
  let pdb_id_batches := batches batch_size pdb_ids in
  query_batches post 0 pdb_id_batches high_quality_pdbs.

(** ** IdentifierResolver: [convert_uniprot_ids] *)

(** The [params] dict of line 128. *)
Record params : Type := {
  query : string;
  fields : string;
  format : string;
  size : nat
}.

(** A Python set of decoded values, in insertion order.  Lists and dicts
    are unhashable; hashable values are equal as Python compares them
    ([True == 1]). *)
Definition hashable (v : value) : bool :=
  match v with
  | VList _ | VDict _ => false
  | _ => true
  end.

Definition py_eq_atom (a b : value) : bool :=
  match a, b with
  | VNone, VNone => true
  | VStr s, VStr t => String.eqb s t
  | VBool x, VBool y => Bool.eqb x y
  | VBool x, VNum q | VNum q, VBool x =>
      Qeq_bool (if x then 1%Q else 0%Q) q
  | VNum p, VNum q => Qeq_bool p q
  | _, _ => false
  end.

Definition set_add (v : value) (s : list value) : res (list value) :=
  if hashable v then
    Ok (if existsb (py_eq_atom v) s then s else s ++ [v])
  else Raise TypeError.

(** The loop of lines 134 to 136. *)
Fixpoint add_accessions (results : list value) (accession_codes : list value)
  : res (list value) :=
  match results with
  | [] => Ok accession_codes
  | item :: rest =>
      present ← py_in "primaryAccession" item;
      accession_codes ←
        (if (present : bool) then
           accession ← py_item item "primaryAccession";
           set_add accession accession_codes
         else Ok accession_codes);
      add_accessions rest accession_codes
  end.

(** One turn of the loop of line 125.  With requests 2.27 and later the
    error of [response.json()] is a [RequestException] as well, so both
    failures reach the [except] of line 137. *)
Definition convert_batch (r : reply) (accession_codes : list value)
  : res (list value) :=
  match r with
  | RequestException | JSONDecodeError => Ok accession_codes
  | Json body =>
      results ← py_get body "results" (VList []);
      results ← py_iter results;
      add_accessions results accession_codes
  end.

Definition search_params (batch : list string) : params :=
  let query_part :=
    String.concat " OR " (map (fun name => "(id:" +:+ name +:+ ")") batch) in
  {| query := query_part; fields := "accession"; format := "json";
     size := length batch |}.

(** The loop of line 125 over the slices of [entry_list]; [get n p] is the
    reply to the nth search request. *)
Fixpoint convert_batches (get : nat -> params -> reply) (n : nat)
    (slices : list (list string)) (accession_codes : list value)
  : res (list value) :=
  match slices with
  | [] => Ok accession_codes
  | names :: rest =>
      let batch := filter (fun name => name <> "") names in
      accession_codes ←
        convert_batch (get n (search_params batch)) accession_codes;
      convert_batches get (S n) rest accession_codes
  end.

(** [entry_list] is the order in which [list(entry_names)] lists the set. *)
Definition convert_uniprot_ids (get : nat -> params -> reply)
    (entry_list : list string) : res (list value) :=
  let accession_codes := [] in
  let batch_size := 100 in
  convert_batches get 0 (batches batch_size entry_list) accession_codes.

(** [not accession_codes], the test of line 344 that ends [main]. *)
Definition stops_main (accession_codes : list value) : bool :=
  Nat.eqb (length accession_codes) 0.

(** ** CrossReferenceMapper: [get_sifts_mapping] *)

(** A row of the table after [usecols]: the PDB and SP_PRIMARY cells,
    [None] for a missing cell (NaN). *)
Definition row : Type := option string * option string.

(** [dropna]. *)
Definition dropna (df : list row) : list (string * string) :=
  omap (fun r => match r with
                 | (Some pdb, Some sp) => Some (pdb, sp)
                 | _ => None
                 end) df.

(** [df[df['SP_PRIMARY'].isin(ids)]]. *)
Definition isin_rows (ids : list string) (df : list (string * string))
  : list (string * string) :=
  filter (fun r => r.2 ∈ ids) df.

(** [drop_duplicates]: the first of equal rows is kept. *)
Fixpoint drop_duplicates (seen : list (string * string))
    (df : list (string * string)) : list (string * string) :=
  match df with
  | [] => []
  | r :: rest =>
      if bool_decide (r ∈ seen) then drop_duplicates seen rest
      else r :: drop_duplicates (r :: seen) rest
  end.

(** [groupby('SP_PRIMARY')['PDB'].apply(list).to_dict()]: one key per
    distinct accession, the keys sorted, and under each key the PDB cells of
    its rows in the order of the rows. *)
Fixpoint insert_key (k : string) (keys : list string) : list string :=
  match keys with
  | [] => [k]
  | k' :: rest =>
      if String.eqb k k' then keys
      else if String.ltb k k' then k :: keys
      else k' :: insert_key k rest
  end.

Definition sorted_keys (df : list (string * string)) : list string :=
  foldr (fun r keys => insert_key r.2 keys) [] df.

Definition groupby (df : list (string * string))
  : list (string * list string) :=
  map (fun k => (k, map fst (filter (fun r => r.2 = k) df))) (sorted_keys df).

(** [read_csv] is [None] when the table cannot be fetched or parsed. *)
Definition get_sifts_mapping (read_csv : option (list row))
    (target_uniprot_ids : list string) : option (list (string * list string)) :=
  match read_csv with
  | None => None
  | Some sifts_df =>
      let sifts_df := dropna sifts_df in
      let target_sifts_df :=
        drop_duplicates [] (isin_rows target_uniprot_ids sifts_df) in
      let uniprot_to_pdb_map := groupby target_sifts_df in
      Some uniprot_to_pdb_map
  end.

(** [d.get(k)] for a dict kept as a list of items. *)
Fixpoint dict_get {V : Type} (k : string) (d : list (string * V)) : option V :=
  match d with
  | [] => None
  | (k', v) :: d' => if String.eqb k' k then Some v else dict_get k d'
  end.

(** ** BestStructureSelector *)

(** The dict built at line 202, with the field line 230 adds.  The
    selector is given the records of the filter whose id is a string and
    whose resolution is a number. *)
Record pdb_info : Type := {
  pdb_id : string;
  method : string;
  resolution : Q;
  uniprot_id : option string
}.

(** The record as the Python dict it stands for. *)
Definition dict_of (r : pdb_info) : value :=
  VDict ([("pdb_id", VStr (pdb_id r)); ("method", VStr (method r));
          ("resolution", VNum (resolution r))] ++
         match uniprot_id r with
         | Some u => [("uniprot_id", VStr u)]
         | None => []
         end).

(** The store of records.  It is total: an address that no list mentions
    holds a record that nothing reads. *)
Definition loc : Type := nat.
Definition heap : Type := loc -> pdb_info.

(** [best_pdb_info['uniprot_id'] = uniprot_id]. *)
Definition set_uniprot_id (r : pdb_info) (u : string) : pdb_info :=
  {| pdb_id := pdb_id r; method := method r; resolution := resolution r;
     uniprot_id := Some u |}.

(** [str.upper] on ASCII text. *)
Definition upper_ascii (a : ascii) : ascii :=
  let n := nat_of_ascii a in
  if Nat.leb 97 n && Nat.leb n 122 then ascii_of_nat (n - 32) else a.

Fixpoint upper (s : string) : string :=
  match s with
  | EmptyString => EmptyString
  | String a s' => String (upper_ascii a) (upper s')
  end.

Definition Qltb (x y : Q) : bool := negb (Qle_bool y x).

(** [min(l, key=...)] keeps the first item whose key is smallest: a later
    item replaces the current one only when its key is strictly less. *)
Definition select_best_structure (h : heap) (pdb_info_list : list loc)
  : option loc :=
  match pdb_info_list with
  | [] => None
  | x :: rest =>
      Some (fold_left
              (fun best y =>
                 if Qltb (resolution (h y)) (resolution (h best)) then y
                 else best)
              rest x)
  end.

(** The comprehension of line 218. *)
Definition pdb_to_uniprot_map (uniprot_map : list (string * list string))
  : gmap string string :=
  fold_left
    (fun m item =>
       fold_left (fun m pdb => <[upper pdb := item.1]> m) item.2 m)
    uniprot_map ∅.

(** One store into the dict that comprehension builds, and the
    [(pdb, uniprot)] pairs it visits, in its order. *)
Definition index_insert (index : gmap string string) (p : string * string)
  : gmap string string :=
  <[upper p.1 := p.2]> index.

Definition index_pairs (uniprot_map : list (string * list string))
  : list (string * string) :=
  item ← uniprot_map; (fun pdb => (pdb, item.1)) <$> item.2.

(** Lines 221 and 222: the accession a record is filed under, if any. *)
Definition accession_of (index : gmap string string) (r : pdb_info)
  : option string :=
  match index !! upper (pdb_id r) with
  | Some uniprot_id => if String.eqb uniprot_id "" then None else Some uniprot_id
  | None => None
  end.

(** Lines 223 to 225 on the insertion-ordered dict. *)
Fixpoint dict_append (k : string) (x : loc) (d : list (string * list loc))
  : list (string * list loc) :=
  match d with
  | [] => [(k, [x])]
  | (k', xs) :: d' =>
      if String.eqb k' k then (k', xs ++ [x]) :: d'
      else (k', xs) :: dict_append k x d'
  end.

Definition group_by_uniprot (h : heap) (index : gmap string string)
    (high_quality_pdb_list : list loc) : list (string * list loc) :=
  fold_left
    (fun uniprot_to_pdbs_info x =>
       match accession_of index (h x) with
       | Some uniprot_id => dict_append uniprot_id x uniprot_to_pdbs_info
       | None => uniprot_to_pdbs_info
       end)
    high_quality_pdb_list [].

(** One turn of the loop of lines 227 to 231, on [best_structures] and the
    store. *)
Definition select_step (st : list loc * heap) (item : string * list loc)
  : list loc * heap :=
  match select_best_structure st.2 item.2 with
  | Some best =>
      (st.1 ++ [best], <[best := set_uniprot_id (st.2 best) item.1]> st.2)
  | None => st
  end.

Definition select_groups (uniprot_to_pdbs_info : list (string * list loc))
    (h : heap) : list loc * heap :=
  fold_left select_step uniprot_to_pdbs_info ([], h).

Definition group_and_select_best_structures (h : heap)
    (high_quality_pdb_list : list loc)
    (uniprot_map : list (string * list string)) : list loc * heap :=
  let index := pdb_to_uniprot_map uniprot_map in
  let uniprot_to_pdbs_info := group_by_uniprot h index high_quality_pdb_list in
  select_groups uniprot_to_pdbs_info h.

(** ** How a batch can end *)

(** A GraphQL-level error: the body has a non-empty [errors] list whose
    first item carries a message. *)
Definition graphql_error (results : value) : Prop :=
  exists d e rest msg,
    results = VDict d /\
    assoc "errors" d = Some (VList (VDict e :: rest)) /\
    assoc "message" e = Some msg.

(** [batch_outcome r accepted]: the request of a batch of the quality
    filter came back with [r], and the batch, run on its own, yields the
    records [accepted].  A batch fails by a transport error, by a body that
    does not decode, or by a GraphQL-level error; it succeeds when the body
    reports no error and lines 195 to 202 run through. *)
Inductive batch_outcome (r : reply) : list value -> Prop :=
  | batch_transport_error :
      r = RequestException -> batch_outcome r []
  | batch_malformed :
      r = JSONDecodeError -> batch_outcome r []
  | batch_graphql_error results :
      r = Json results -> graphql_error results -> batch_outcome r []
  | batch_succeeded results accepted :
      r = Json results ->
      has_errors results = Ok false ->
      handle_results results [] = Ok accepted ->
      batch_outcome r accepted.

(** The upper-cased id of a response entry and of an accepted record. *)
Definition entry_key (entry : value) : option string :=
  match entry with
  | VDict d =>
      match assoc "rcsb_id" d with
      | Some (VStr s) => Some (upper s)
      | _ => None
      end
  | _ => None
  end.

Definition record_key (record : value) : option string :=
  match record with
  | VDict d =>
      match assoc "pdb_id" d with
      | Some (VStr s) => Some (upper s)
      | _ => None
      end
  | _ => None
  end.

(** The list under [data.entries] of a reply, when there is one. *)
Definition reply_entries (r : reply) : list value :=
  match r with
  | Json (VDict d) =>
      match assoc "data" d with
      | Some (VDict data) =>
          match assoc "entries" data with
          | Some (VList entries) => entries
          | _ => []
          end
      | _ => []
      end
  | _ => []
  end.

(** [lists_accessions items found]: the search results [items] are dicts,
    and [found] are the strings under their ["primaryAccession"] keys, in
    order. *)
Inductive lists_accessions : list value -> list string -> Prop :=
  | lists_nil : lists_accessions [] []
  | lists_with d a items found :
      assoc "primaryAccession" d = Some (VStr a) ->
      lists_accessions items found ->
      lists_accessions (VDict d :: items) (a :: found)
  | lists_without d items found :
      assoc "primaryAccession" d = None ->
      lists_accessions items found ->
      lists_accessions (VDict d :: items) found.

(** [search_outcome r found]: a batch of the resolver failed (and found
    nothing), or was answered with a body that lists [found]. *)
Inductive search_outcome (r : reply) (found : list string) : Prop :=
  | search_failed :
      r = RequestException \/ r = JSONDecodeError ->
      found = [] ->
      search_outcome r found
  | search_no_results body :
      r = Json (VDict body) ->
      assoc "results" body = None ->
      found = [] ->
      search_outcome r found
  | search_answered body items :
      r = Json (VDict body) ->
      assoc "results" body = Some (VList items) ->
      lists_accessions items found ->
      search_outcome r found.

(** [accession_codes] after the strings [found] were added in order. *)
Definition add_codes (found codes : list string) : list string :=
  fold_left (fun codes a => if bool_decide (a ∈ codes) then codes
                            else codes ++ [a])
            found codes.

(** ** The quality predicate on well-shaped entries *)

(** An entry as the service shapes it: the [exptl] list (or null) of
    objects with a method (or null), and the [rcsb_entry_info] object with
    the [resolution_combined] list (or null) of numbers (or null). *)
Definition exptl_cell (methods : option (list (option string))) : value :=
  match methods with
  | None => VNone
  | Some ms =>
      VList (map (fun m => VDict [("method",
                                   match m with
                                   | Some s => VStr s
                                   | None => VNone
                                   end)]) ms)
  end.

Definition info_cell (resolutions : option (list (option Q))) : value :=
  VDict [("resolution_combined",
          match resolutions with
          | None => VNone
          | Some rs =>
              VList (map (fun r => match r with
                                   | Some q => VNum q
                                   | None => VNone
                                   end) rs)
          end)].

Definition shaped_entry (id : string)
    (methods : option (list (option string)))
    (resolutions : option (list (option Q))) : value :=
  VDict [("rcsb_id", VStr id); ("exptl", exptl_cell methods);
         ("rcsb_entry_info", info_cell resolutions)].

Definition first_of {A : Type} (cell : option (list (option A))) : option A :=
  match cell with
  | Some (Some x :: _) => Some x
  | _ => None
  end.

(** The predicate as the specification words it: the first method is an
    accepted one, and the first resolution is present and at most the
    maximum. *)
Definition quality_predicate (methods : option (list (option string)))
    (resolutions : option (list (option Q))) : option (string * Q) :=
  match first_of methods, first_of resolutions with
  | Some m, Some q =>
      if bool_decide (m ∈ EXPERIMENTAL_METHODS) && Qle_bool q MAX_RESOLUTION
      then Some (m, q) else None
  | _, _ => None
  end.

(** ** Sample inputs *)

(** Three accepted records at addresses 0, 1 and 2; every other address
    holds a record that no mapping mentions. *)
Definition sample_heap : heap := fun l =>
  match l with
  | 0 => {| pdb_id := "1ABC"; method := "X-RAY DIFFRACTION";
            resolution := 2%Q; uniprot_id := None |}
  | 1 => {| pdb_id := "2abc"; method := "X-RAY DIFFRACTION";
            resolution := 2%Q; uniprot_id := None |}
  | 2 => {| pdb_id := "3ABC"; method := "X-RAY DIFFRACTION";
            resolution := (3 # 2)%Q; uniprot_id := None |}
  | _ => {| pdb_id := "9ZZZ"; method := "X-RAY DIFFRACTION";
            resolution := 1%Q; uniprot_id := None |}
  end.

Definition sample_map : list (string * list string) :=
  [("P1", ["1abc"; "2ABC"]); ("P2", ["3abc"]); ("P3", ["4abc"])].

(** A response entry with one method and one resolution, the body that
    lists given entries, and the record line 202 builds. *)
Definition sample_entry (id m : string) (r : Q) : value :=
  VDict [("rcsb_id", VStr id);
         ("exptl", VList [VDict [("method", VStr m)]]);
         ("rcsb_entry_info",
          VDict [("resolution_combined", VList [VNum r])])].

Definition sample_body (entries : list value) : value :=
  VDict [("data", VDict [("entries", VList entries)])].

Definition sample_record (id : string) (r : Q) : value :=
  VDict [("pdb_id", VStr id); ("method", VStr "X-RAY DIFFRACTION");
         ("resolution", VNum r)].

(** 2001 ids make five batches; the third request fails, the others
    answer with an accepted entry per id. *)
Definition sample_ids : list string := replicate 2001 "1abc".

Definition sample_post (n : nat) (batch : list string) : reply :=
  if Nat.eqb n 2 then RequestException
  else Json (sample_body
               (map (fun id => sample_entry (upper id) "X-RAY DIFFRACTION" 2%Q)
                    batch)).

Definition sample_outs : list (list value) :=
  imap (fun n batch =>
          if Nat.eqb n 2 then []
          else map (fun id => sample_record (upper id) 2%Q) batch)
       (batches 500 sample_ids).

(** The service answers with the entries in the reverse of the order
    requested. *)
Definition reversed_post (n : nat) (batch : list string) : reply :=
  Json (sample_body
          (map (fun id => sample_entry (upper id) "X-RAY DIFFRACTION" 2%Q)
               (reverse batch))).

(** The second of three ids is solved by NMR. *)
Definition ordered_post (n : nat) (batch : list string) : reply :=
  Json (sample_body
          [sample_entry "1ABC" "X-RAY DIFFRACTION" 2%Q;
           sample_entry "2ABC" "SOLUTION NMR" 1%Q;
           sample_entry "3ABC" "X-RAY DIFFRACTION" (5 # 2)%Q]).

(** An entry whose [rcsb_entry_info] object is null. *)
Definition null_info_entry : value :=
  VDict [("rcsb_id", VStr "1ABC");
         ("exptl", VList [VDict [("method", VStr "X-RAY DIFFRACTION")]]);
         ("rcsb_entry_info", VNone)].

Definition null_info_post (n : nat) (batch : list string) : reply :=
  Json (sample_body
          [sample_entry "2XYZ" "X-RAY DIFFRACTION" 2%Q; null_info_entry]).

(** Every search request fails. *)
Definition failing_get (n : nat) (p : params) : reply := RequestException.

(** Two names, one answer that lists an accession twice. *)
Definition sample_get (n : nat) (p : params) : reply :=
  Json (VDict [("results",
                VList [VDict [("primaryAccession", VStr "P00533")];
                       VDict [("entryType", VStr "UniProtKB reviewed")];
                       VDict [("primaryAccession", VStr "P00533")]])]).

(** * Further parts of the script *)

(** A record as line 202 builds it: the three keys, an accepted method, and
    a resolution that passed the test of line 201. *)
Definition accepted_record (record : value) : Prop :=
  exists rcsb_id resolution,
    record = VDict [("pdb_id", rcsb_id);
                    ("method", VStr "X-RAY DIFFRACTION");
                    ("resolution", resolution)] /\
    resolution <> VNone /\
    py_le resolution MAX_RESOLUTION = Ok true.

(** The first request is answered with an accepted entry per id, every
    later one with an entry whose [rcsb_entry_info] is null. *)
Definition late_null_post (n : nat) (batch : list string) : reply :=
  match n with
  | 0 => Json (sample_body
                 (map (fun id => sample_entry (upper id) "X-RAY DIFFRACTION"
                                   2%Q) batch))
  | _ => Json (sample_body [null_info_entry])
  end.

(** The order of Python strings, by code point. *)
Definition str_lt (a b : string) : Prop := String.ltb a b = true.


(** The first search is answered with an accession, every later one with
    a body whose [results] is null. *)
Definition late_null_get (n : nat) (p : params) : reply :=
  match n with
  | 0 => Json (VDict [("results",
                       VList [VDict [("primaryAccession", VStr "P00533")]])])
  | _ => Json (VDict [("results", VNone)])
  end.

(** ** TargetNormalizer: [get_ttd_targets] *)

(** Text is a string of code points below 256.  [is_space] is the
    whitespace of [\s] and of [str.strip] there. *)
Definition is_space (a : ascii) : bool :=
  let n := nat_of_ascii a in
  (Nat.leb 9 n && Nat.leb n 13) || (Nat.leb 28 n && Nat.leb n 32) ||
  Nat.eqb n 133 || Nat.eqb n 160.

Definition newline : ascii := ascii_of_nat 10.
Definition semicolon : ascii := ascii_of_nat 59.

(** The [re.findall] of line 70, read one character at a time.  With
    [re.MULTILINE] a match of the pattern can only start where a line
    starts; it reads the marker UNIPROID, then as much whitespace as there
    is (at least one character, and a newline is whitespace too), then the
    group, which is the rest of the line.  The search for the next match
    goes on behind the group. *)
Inductive scan : Type :=
  | Marker (rest : string)
      (* a line started and the marker was read up to [rest] *)
  | Skip
      (* inside a line at whose start nothing matched *)
  | Spaces
      (* the marker and one or more whitespace characters were read *)
  | Group (line : string).
      (* the group so far *)

Fixpoint findall_uniproid (st : scan) (content : string) : list string :=
  match content with
  | EmptyString =>
      match st with
      | Spaces => [""]
      | Group line => [line]
      | Marker _ | Skip => []
      end
  | String c rest =>
      match st with
      | Marker (String m marker) =>
          if Ascii.eqb c m then findall_uniproid (Marker marker) rest
          else if Ascii.eqb c newline
               then findall_uniproid (Marker "UNIPROID") rest
               else findall_uniproid Skip rest
      | Marker EmptyString =>
          if is_space c then findall_uniproid Spaces rest
          else findall_uniproid Skip rest
      | Skip =>
          if Ascii.eqb c newline
          then findall_uniproid (Marker "UNIPROID") rest
          else findall_uniproid Skip rest
      | Spaces =>
          if is_space c then findall_uniproid Spaces rest
          else findall_uniproid (Group (String c "")) rest
      | Group line =>
          if Ascii.eqb c newline
          then line :: findall_uniproid (Marker "UNIPROID") rest
          else findall_uniproid (Group (line +:+ String c "")) rest
      end
  end.

(** [s.split(';')], with the piece being read in [piece]. *)
Fixpoint split_semicolon (piece s : string) : list string :=
  match s with
  | EmptyString => [piece]
  | String c rest =>
      if Ascii.eqb c semicolon then piece :: split_semicolon "" rest
      else split_semicolon (piece +:+ String c "") rest
  end.

(** [s.strip()]. *)
Fixpoint lstrip (s : string) : string :=
  match s with
  | EmptyString => EmptyString
  | String c rest => if is_space c then lstrip rest else s
  end.

Fixpoint rstrip (s : string) : string :=
  match s with
  | EmptyString => EmptyString
  | String c rest =>
      match rstrip rest with
      | EmptyString => if is_space c then EmptyString else String c ""
      | kept => String c kept
      end
  end.

Definition strip (s : string) : string := rstrip (lstrip s).

(** [s.lower()], as far as a comparison with ASCII text can tell. *)
Definition lower_ascii (a : ascii) : ascii :=
  let n := nat_of_ascii a in
  if Nat.leb 65 n && Nat.leb n 90 then ascii_of_nat (n + 32) else a.

Fixpoint lower (s : string) : string :=
  match s with
  | EmptyString => EmptyString
  | String a s' => String (lower_ascii a) (lower s')
  end.

(** Lines 75 to 77 for one piece of a line. *)
Definition add_name (uniprot_entry_names : list string) (pid : string)
  : list string :=
  let cleaned_id := strip pid in
  if negb (String.eqb cleaned_id "") &&
     negb (String.eqb (lower cleaned_id) "uniprot id")
  then add_codes [cleaned_id] uniprot_entry_names
  else uniprot_entry_names.

(** Lines 69 to 77 on the downloaded text. *)
Definition parse_targets (content : string) : list string :=
  let raw_id_lines := findall_uniproid (Marker "UNIPROID") content in
  fold_left
    (fun names line => fold_left add_name (split_semicolon "" line) names)
    raw_id_lines [].

(** [download] is [None] when line 62 or line 63 raises. *)
Definition get_ttd_targets (download : option string) : option (list string) :=
  match download with
  | None => None
  | Some content =>
      match parse_targets content with
      | [] => None
      | uniprot_entry_names => Some uniprot_entry_names
      end
  end.

(** A name as [get_ttd_targets] lets it through. *)
Definition has_char (c : ascii) (s : string) : Prop :=
  c ∈ list_ascii_of_string s.

Definition clean_name (s : string) : Prop :=
  s <> "" /\ strip s = s /\ lower s <> "uniprot id" /\
  ~ has_char semicolon s /\ ~ has_char newline s.

(** The lines of a target file: a line of other content, or the marker,
    a gap of whitespace, and names between semicolons. *)
Inductive ttd_line : Type :=
  | Other (text : string)
  | Ids (gap : string) (names : list string).

Definition render_line (l : ttd_line) : string :=
  match l with
  | Other text => text
  | Ids gap names => "UNIPROID" +:+ gap +:+ String.concat ";" names
  end.

Fixpoint render (lines : list ttd_line) : string :=
  match lines with
  | [] => ""
  | l :: rest => render_line l +:+ String newline (render rest)
  end.

Definition line_names (l : ttd_line) : list string :=
  match l with
  | Other _ => []
  | Ids _ names => names
  end.

Definition all_space (s : string) : Prop :=
  Forall (fun c => is_space c = true) (list_ascii_of_string s).

Definition well_formed_line (l : ttd_line) : Prop :=
  match l with
  | Other text =>
      ~ has_char newline text /\ String.prefix "UNIPROID" text = false
  | Ids gap names =>
      gap <> "" /\ all_space gap /\ names <> [] /\ Forall clean_name names
  end.

(** ** The pipeline of [main], lines 340 to 354 *)

(** The accepted dict as the record the selector reads.  Line 221 calls
    [.upper()] on the id, which a value that is no string does not have;
    the method of an accepted record is a string and its resolution a
    number (a bool counts as 0 or 1). *)
Definition record_of (record : value) : res pdb_info :=
  pdb_id ← py_item record "pdb_id";
  method ← py_item record "method";
  resolution ← py_item record "resolution";
  match pdb_id, method, resolution with
  | VStr id, VStr m, VNum q =>
      Ok {| pdb_id := id; method := m; resolution := q; uniprot_id := None |}
  | VStr id, VStr m, VBool b =>
      Ok {| pdb_id := id; method := m;
            resolution := if b then 1%Q else 0%Q; uniprot_id := None |}
  | VStr _, _, _ => Raise TypeError
  | _, _, _ => Raise AttributeError
  end.

Fixpoint records_of (records : list value) : res (list pdb_info) :=
  match records with
  | [] => Ok []
  | record :: rest =>
      r ← record_of record;
      rs ← records_of rest;
      Ok (r :: rs)
  end.

(** The store in which the nth accepted record lives at address n. *)
Definition unused_record : pdb_info :=
  {| pdb_id := ""; method := ""; resolution := 0%Q; uniprot_id := None |}.

Definition store_of (records : list pdb_info) : heap :=
  fun l => nth l records unused_record.

(** The strings of a set of decoded values: what [isin] can match. *)
Definition strings_of (codes : list value) : list string :=
  omap (fun v => match v with VStr s => Some s | _ => None end) codes.

(** Where [main] returns before line 357, or what it has selected. *)
Inductive stage : Type :=
  | NoTargets
  | NoAccessions
  | NoMapping
  | NoQualified
  | NoSelection.

Inductive outcome : Type :=
  | Returns (at_stage : stage)
  | Selected (best_structures_to_download : list loc) (h : heap).

(** The outside of a run: the text of the target list, the answers of the
    two services, the cross-reference table, and the orders in which
    [list(...)] lists the two sets of lines 122 and 349. *)
Record world : Type := {
  ttd : option string;
  uniprot : nat -> params -> reply;
  sifts : option (list row);
  rcsb : nat -> list string -> reply;
  entry_order : list string -> list string;
  pdb_order : list string -> list string
}.

Definition main_pipeline (w : world) : res outcome :=
  match get_ttd_targets (ttd w) with
  | None => Ok (Returns NoTargets)
  | Some target_entry_names =>
      accession_codes ←
        convert_uniprot_ids (uniprot w) (entry_order w target_entry_names);
      if stops_main accession_codes then Ok (Returns NoAccessions) else
      match get_sifts_mapping (sifts w) (strings_of accession_codes) with
      | None | Some [] => Ok (Returns NoMapping)
      | Some uniprot_to_pdb_map =>
          let all_pdb_ids :=
            pdb_order w (add_codes (concat uniprot_to_pdb_map.*2) []) in
          high_quality_pdb_list ← filter_pdbs_by_quality (rcsb w) all_pdb_ids;
          match high_quality_pdb_list with
          | [] => Ok (Returns NoQualified)
          | _ =>
              records ← records_of high_quality_pdb_list;
              let result :=
                group_and_select_best_structures (store_of records)
                  (seq 0 (length records)) uniprot_to_pdb_map in
              match result.1 with
              | [] => Ok (Returns NoSelection)
              | best_structures_to_download =>
                  Ok (Selected best_structures_to_download result.2)
              end
          end
      end
  end.

(** A small run: two names, one accession,
    two structures of which one is good enough. *)
Definition sample_world : world := {|
  ttd := Some "UNIPROID  A;B;A";
  uniprot := fun _ _ =>
    Json (VDict [("results", VList [VDict [("primaryAccession", VStr "X1")]])]);
  sifts := Some [(Some "s1", Some "X1"); (Some "s2", Some "X1");
                 (Some "s3", Some "Y9")];
  rcsb := fun _ _ =>
    Json (sample_body [sample_entry "S1" "X-RAY DIFFRACTION" (3 # 2)%Q;
                       sample_entry "S2" "X-RAY DIFFRACTION" 4%Q]);
  entry_order := fun l => l;
  pdb_order := fun l => l
|}.


(** ** Downloader: [download_pdb_files] *)

Definition RAW_DOWNLOAD_DIR : string := "PDB_repository_TTD".
Definition DOWNLOAD_LOG_FILE : string := "download_log_ttd.csv".

(** What [requests.get] of line 248 comes back with: a
    [RequestException], or a response with its status and text. *)
Inductive http_reply : Type :=
  | ConnectionError
  | Response (status_code : nat) (text : string).

(** The machine the downloads run on.  [get n url] answers the request of
    the [n]-th round of the loop.  The three file operations can fail
    with an [OSError], which no [except] clause of the function catches:
    [makedirs dir] tells whether line 239 succeeds, [open_w n path]
    whether line 250 does in round [n], [to_csv path] whether line 258
    does. *)
Record host : Type := {
  get : nat -> string -> http_reply;
  makedirs : string -> bool;
  open_w : nat -> string -> bool;
  to_csv : string -> bool
}.

(** A row of [log_data]. *)
Record log_row : Type := {
  UniProt_ID : string;
  PDB_ID : string;
  Resolution : Q;
  Method : string;
  Status : string;
  Filename : string
}.

(** How a run ends: it returns, having built [log_data]; or line 243
    raises a [KeyError]; or a file operation raises an [OSError]. *)
Inductive download_result : Type :=
  | Logged (log_data : list log_row)
  | Raised (e : exn)
  | RaisedOSError.

(** The files and their text, by path, and the rows of the log file when
    it was written. *)
Record disk : Type := {
  files : gmap string string;
  log_file : option (list log_row)
}.

(** [os.path.join(a, b)] on a POSIX system. *)
Fixpoint ends_with_slash (a : string) : bool :=
  match a with
  | EmptyString => false
  | String c EmptyString => Ascii.eqb c "/"
  | String _ rest => ends_with_slash rest
  end.

Definition path_join (a b : string) : string :=
  match b with
  | String "/" _ => b
  | _ =>
      if String.eqb a "" || ends_with_slash a then a +:+ b
      else a +:+ "/" +:+ b
  end.

(** Lines 244 and 245 for one record. *)
Definition download_url (pdb_id : string) : string :=
  "https://files.rcsb.org/download/" +:+ pdb_id +:+ ".cif".

Definition new_filename (uniprot_id pdb_id : string) : string :=
  uniprot_id +:+ "_" +:+ pdb_id +:+ ".cif".

Definition log_entry (r : pdb_info) (uniprot_id status filename : string)
  : log_row :=
  {| UniProt_ID := uniprot_id; PDB_ID := pdb_id r;
     Resolution := resolution r; Method := method r;
     Status := status; Filename := filename |}.

(** The loop of lines 241 to 255 from round [n] on. *)
Fixpoint download_loop (m : host) (h : heap) (output_dir : string) (n : nat)
    (best_pdb_list : list loc) (fs : gmap string string)
    (log_data : list log_row) : gmap string string * download_result :=
  match best_pdb_list with
  | [] => (fs, Logged log_data)
  | b :: rest =>
      let pdb_info := h b in
      match uniprot_id pdb_info with
      | None => (fs, Raised KeyError)
      | Some uniprot_id =>
          let name := new_filename uniprot_id (pdb_id pdb_info) in
          let filepath := path_join output_dir name in
          match get m n (download_url (pdb_id pdb_info)) with
          | Response status_code text =>
              if Nat.eqb status_code 200 then
                if open_w m n filepath then
                  download_loop m h output_dir (S n) rest
                    (<[filepath := text]> fs)
                    (log_data ++
                     [log_entry pdb_info uniprot_id "Downloaded" name])
                else (fs, RaisedOSError)
              else
                download_loop m h output_dir (S n) rest fs
                  (log_data ++
                   [log_entry pdb_info uniprot_id
                      ("Failed (HTTP " +:+ pretty.pretty status_code +:+ ")") ""])
          | ConnectionError =>
              download_loop m h output_dir (S n) rest fs
                (log_data ++
                 [log_entry pdb_info uniprot_id
                    "Failed (Connection Error)" ""])
          end
      end
  end.

Definition download_pdb_files (m : host) (h : heap)
    (best_pdb_list : list loc) (output_dir : string) (d : disk)
  : disk * download_result :=
  if makedirs m output_dir then
    match download_loop m h output_dir 0 best_pdb_list (files d) [] with
    | (fs, Logged log_data) =>
        match log_data with
        | [] => ({| files := fs; log_file := log_file d |}, Logged [])
        | _ =>
            if to_csv m DOWNLOAD_LOG_FILE
            then ({| files := fs; log_file := Some log_data |},
                  Logged log_data)
            else ({| files := fs; log_file := log_file d |}, RaisedOSError)
        end
    | (fs, stopped) => ({| files := fs; log_file := log_file d |}, stopped)
    end
  else (d, RaisedOSError).

(** A machine on which two of three downloads work. *)
Definition sample_host : host :=
  {| get := fun n url =>
       match n with
       | 0 => Response 200 "data_1ABC"
       | 1 => Response 404 "Not Found"
       | 2 => ConnectionError
       | _ => Response 200 "data_4XYZ"
       end;
     makedirs := fun _ => true;
     open_w := fun _ _ => true;
     to_csv := fun _ => true |}.

Definition sample_best : heap := fun b =>
  {| pdb_id := match b with 0 => "1ABC" | 1 => "2DEF" | 2 => "3GHI"
               | _ => "4XYZ" end;
     method := "X-RAY DIFFRACTION"; resolution := 2;
     uniprot_id := Some (match b with 0 => "P1" | 1 => "P2" | 2 => "P3"
                         | _ => "P4" end) |}.

Definition empty_disk : disk := {| files := ∅; log_file := None |}.

(** The text a reply brings when line 249 takes it. *)
Definition fetched (r : http_reply) : option string :=
  match r with
  | Response status_code text =>
      if Nat.eqb status_code 200 then Some text else None
  | ConnectionError => None
  end.


Definition sample_run : disk * download_result :=
  download_pdb_files sample_host sample_best [0; 1; 2; 3] RAW_DOWNLOAD_DIR
    empty_disk.

Definition sample_log : list log_row :=
  match sample_run.2 with
  | Logged log_data => log_data
  | _ => []
  end.

(** * Properties *)

Set Warnings "-clear-no-such-hyp".

(** ** General lemmas *)

Lemma eqb_decide (a b : string) : String.eqb a b = bool_decide (a = b).
Proof.
  destruct (String.eqb_spec a b) as [->|Hne].
  - by rewrite bool_decide_eq_true_2.
  - by rewrite bool_decide_eq_false_2.
Qed.

Lemma bind_assoc {A B C : Type} (m : res A) (k : A -> res B)
    (k' : B -> res C) :
  (m ≫= k) ≫= k' = m ≫= (fun a => k a ≫= k').
Proof. by destruct m. Qed.

Lemma bind_ext {A B : Type} (m : res A) (k k' : A -> res B) :
  (forall a, k a = k' a) -> m ≫= k = m ≫= k'.
Proof. intros H. destruct m; simpl; [apply H | done]. Qed.

Ltac bind_steps := repeat first [rewrite bind_assoc | apply bind_ext; intros ?].
Ltac split_if :=
  match goal with |- context [if ?b then _ else _] => destruct b end.

(** ** The identifier resolver *)

Lemma existsb_py_eq_str (a : string) (codes : list string) :
  existsb (py_eq_atom (VStr a)) (VStr <$> codes) = bool_decide (a ∈ codes).
Proof.
  induction codes as [|c codes IH]; csimpl.
  - done.
  - rewrite IH, eqb_decide. clear IH.
    repeat case_bool_decide; simpl; try done; set_solver.
Qed.

Lemma add_codes_cons (a : string) (found codes : list string) :
  add_codes (a :: found) codes = add_codes found (add_codes [a] codes).
Proof. done. Qed.

Lemma add_codes_app (found found' codes : list string) :
  add_codes (found ++ found') codes = add_codes found' (add_codes found codes).
Proof. unfold add_codes. by rewrite fold_left_app. Qed.

Lemma add_codes_spec (found codes : list string) :
  NoDup codes ->
  NoDup (add_codes found codes) /\
  forall a, a ∈ add_codes found codes <-> a ∈ codes \/ a ∈ found.
Proof.
  revert codes. induction found as [|x found IH]; intros codes Hnd.
  - split; [done|]. set_solver.
  - rewrite add_codes_cons.
    assert (Hx : NoDup (add_codes [x] codes) /\
                 forall a, a ∈ add_codes [x] codes <-> a ∈ codes \/ a = x).
    { unfold add_codes. simpl. case_bool_decide as Hin.
      - split; [done|]. set_solver.
      - split; [|set_solver]. apply list.NoDup_app.
        repeat split; [done | set_solver | apply NoDup_singleton]. }
    destruct Hx as [Hnd' Hmem]. destruct (IH _ Hnd') as [Hnd'' Hmem'].
    split; [done|]. intros a. rewrite Hmem', Hmem. set_solver.
Qed.

Lemma add_accessions_lists (items : list value) (found codes : list string) :
  lists_accessions items found ->
  add_accessions items (VStr <$> codes) = Ok (VStr <$> add_codes found codes).
Proof.
  intros Hl. revert codes.
  induction Hl as [|d a items found Ha _ IH|d items found Ha _ IH];
    intros codes; simpl.
  - done.
  - rewrite Ha. simpl. rewrite existsb_py_eq_str.
    case_bool_decide; [by rewrite IH|].
    replace ((VStr <$> codes) ++ [VStr a]) with (VStr <$> (codes ++ [a]))
      by (by rewrite fmap_app).
    by rewrite IH.
  - rewrite Ha. simpl. by rewrite IH.
Qed.

Lemma convert_batch_outcome (r : reply) (found codes : list string) :
  search_outcome r found ->
  convert_batch r (VStr <$> codes) = Ok (VStr <$> add_codes found codes).
Proof.
  intros [[-> | ->] -> | body -> Hres -> | body items -> Hres Hl]; simpl;
    try done.
  - by rewrite Hres.
  - rewrite Hres. simpl. by apply add_accessions_lists.
Qed.

Lemma convert_batches_outcomes (get : nat -> params -> reply)
    (slices : list (list string)) (founds : list (list string)) (n : nat)
    (codes : list string) :
  length founds = length slices ->
  (forall i names found,
      slices !! i = Some names -> founds !! i = Some found ->
      search_outcome
        (get (n + i) (search_params (filter (fun name => name <> "") names)))
        found) ->
  convert_batches get n slices (VStr <$> codes) =
  Ok (VStr <$> add_codes (concat founds) codes).
Proof.
  revert founds n codes.
  induction slices as [|names slices IH]; intros [|found founds] n codes
    Hlen Hall; simpl in *; try done.
  rewrite (convert_batch_outcome _ found).
  - simpl. rewrite (IH founds (S n)).
    + by rewrite add_codes_app.
    + by injection Hlen.
    + intros i ns f Hn Hf. replace (S n + i) with (n + S i) by lia.
      by apply Hall.
  - replace n with (n + 0) at 1 by lia. by apply Hall.
Qed.

(** C6, amended.  [convert_uniprot_ids] does not stop at a failed batch:
    when every batch fails or is answered, it returns the accessions the
    answered batches list, each once.  The returned set is empty, which
    line 344 of [main] takes as the end of the run, exactly when no
    answered batch lists an accession: for an empty input, and equally
    when every batch fails. *)
Theorem resolver_union_of_answered_batches
    (get : nat -> params -> reply) (entry_list : list string)
    (founds : list (list string)) :
  length founds = length (batches 100 entry_list) ->
  (forall n names found,
      batches 100 entry_list !! n = Some names -> founds !! n = Some found ->
      search_outcome
        (get n (search_params (filter (fun name => name <> "") names)))
        found) ->
  exists codes,
    convert_uniprot_ids get entry_list = Ok (VStr <$> codes) /\
    NoDup codes /\
    (forall a, a ∈ codes <-> a ∈ concat founds) /\
    (stops_main (VStr <$> codes) = true <-> concat founds = []).
Proof.
  intros Hlen Hall. exists (add_codes (concat founds) []).
  destruct (add_codes_spec (concat founds) [] (NoDup_nil_2)) as [Hnd Hmem].
  split.
  { unfold convert_uniprot_ids.
    by rewrite (convert_batches_outcomes get _ founds 0 []). }
  split; [done|]. split; [intros a; rewrite Hmem; set_solver|].
  unfold stops_main. rewrite length_fmap, Nat.eqb_eq. split.
  - intros Hz. apply nil_length_inv in Hz.
    destruct (concat founds) as [|a l]; [done|].
    assert (a ∈ add_codes (a :: l) []) by (apply Hmem; set_solver).
    rewrite Hz in *. set_solver.
  - by intros ->.
Qed.

Lemma resolver_union_of_answered_batches_witness :
  exists codes,
    convert_uniprot_ids sample_get ["EGFR_HUMAN"; ""; "ERBB2_HUMAN"]
    = Ok (VStr <$> codes) /\
    NoDup codes /\
    (forall a, a ∈ codes <-> a ∈ concat [["P00533"; "P00533"]]) /\
    (stops_main (VStr <$> codes) = true <->
     concat [["P00533"; "P00533"]] = []).
Proof.
  apply resolver_union_of_answered_batches.
  - vm_compute. reflexivity.
  - intros n names found Hn Hf.
    destruct n as [|n]; vm_compute in Hn, Hf; simplify_eq.
    eapply search_answered; [reflexivity | reflexivity |].
    apply lists_with; [reflexivity|].
    apply lists_without; [reflexivity|].
    apply lists_with; [reflexivity|]. apply lists_nil.
Defined.

(** C6, as stated, fails: the empty set that ends the run also comes back
    for a non-empty input, here when the one batch fails. *)
Lemma resolver_failure_counterexample :
  ~ (forall (get : nat -> params -> reply) (entry_list : list string)
       (accession_codes : list value),
       convert_uniprot_ids get entry_list = Ok accession_codes ->
       stops_main accession_codes = true ->
       entry_list = []).
Proof.
  intros H.
  by specialize (H failing_get ["EGFR_HUMAN"] [] eq_refl eq_refl).
Qed.

(** ** The cross-reference mapper *)

Lemma dict_get_tabulate {V : Type} (f : string -> V) (keys : list string)
    (k : string) :
  dict_get k (map (fun k' => (k', f k')) keys) =
  if bool_decide (k ∈ keys) then Some (f k) else None.
Proof.
  induction keys as [|k' keys IH]; simpl; [done|].
  rewrite eqb_decide, IH. clear IH.
  destruct (decide (k' = k)) as [->|Hne].
  - rewrite !bool_decide_eq_true_2; [done | set_solver | done].
  - rewrite (bool_decide_eq_false_2 (k' = k)) by done.
    destruct (decide (k ∈ keys)) as [Hin|Hin].
    + rewrite !bool_decide_eq_true_2; [done | set_solver | done].
    + rewrite !bool_decide_eq_false_2; [done | set_solver | done].
Qed.

Lemma elem_of_insert_key (x k : string) (keys : list string) :
  x ∈ insert_key k keys <-> x = k \/ x ∈ keys.
Proof.
  induction keys as [|k' keys IH]; simpl.
  - rewrite list_elem_of_singleton. set_solver.
  - rewrite eqb_decide. destruct (decide (k = k')) as [->|Hne].
    + rewrite bool_decide_eq_true_2 by done. set_solver.
    + rewrite bool_decide_eq_false_2 by done.
      destruct (String.ltb k k'); set_solver.
Qed.

Lemma elem_of_sorted_keys (k : string) (df : list (string * string)) :
  k ∈ sorted_keys df <-> exists pdb, (pdb, k) ∈ df.
Proof.
  induction df as [|[pdb sp] df IH]; simpl.
  - split; [intros H; by apply elem_of_nil in H | intros [? H]; by apply elem_of_nil in H].
  - rewrite elem_of_insert_key, IH. split.
    + intros [->|[p Hp]]; [exists pdb | exists p]; set_solver.
    + intros [p Hp]. apply elem_of_cons in Hp as [Heq|Hp].
      * left. congruence.
      * right. by exists p.
Qed.

Lemma elem_of_dropna (pdb sp : string) (df : list row) :
  (pdb, sp) ∈ dropna df <-> (Some pdb, Some sp) ∈ df.
Proof.
  unfold dropna. rewrite list_elem_of_omap. split.
  - intros [[[p|] [s|]] [Hin Heq]]; simplify_eq. done.
  - intros Hin. by exists (Some pdb, Some sp).
Qed.

Lemma elem_of_drop_duplicates (r : string * string)
    (seen df : list (string * string)) :
  r ∈ drop_duplicates seen df <-> r ∈ df /\ r ∉ seen.
Proof.
  revert seen. induction df as [|r' df IH]; intros seen; simpl.
  - set_solver.
  - case_bool_decide as Hseen.
    + rewrite IH. set_solver.
    + rewrite elem_of_cons, IH. destruct (decide (r = r')); set_solver.
Qed.

Lemma elem_of_target_rows (pdb sp : string) (df : list row)
    (ids : list string) :
  (pdb, sp) ∈ drop_duplicates [] (isin_rows ids (dropna df)) <->
  (Some pdb, Some sp) ∈ df /\ sp ∈ ids.
Proof.
  rewrite elem_of_drop_duplicates. unfold isin_rows.
  rewrite list_elem_of_filter, elem_of_dropna. simpl. set_solver.
Qed.

Lemma dict_get_groupby (k : string) (df : list (string * string)) :
  dict_get k (groupby df) =
  if bool_decide (k ∈ sorted_keys df)
  then Some (map fst (filter (fun r => r.2 = k) df)) else None.
Proof.
  unfold groupby.
  apply (dict_get_tabulate (fun k => map fst (filter (fun r => r.2 = k) df))).
Qed.

Lemma groupby_lookup_Some (k : string) (pdbs : list string)
    (df : list (string * string)) :
  dict_get k (groupby df) = Some pdbs ->
  pdbs <> [] /\ forall pdb, pdb ∈ pdbs <-> (pdb, k) ∈ df.
Proof.
  rewrite dict_get_groupby. case_bool_decide as Hk; [|done].
  intros [= <-]. apply elem_of_sorted_keys in Hk as [p Hp].
  assert (Hmem : forall pdb,
    pdb ∈ map fst (filter (fun r => r.2 = k) df) <-> (pdb, k) ∈ df).
  { intros pdb. rewrite list_elem_of_fmap. split.
    - intros [[p' k'] [-> Hin]]. apply list_elem_of_filter in Hin as [Hk' Hin].
      simpl in *. by subst.
    - intros Hin. exists (pdb, k). split; [done|].
      by apply list_elem_of_filter. }
  split; [|done].
  intros Hnil. apply (Hmem p) in Hp. rewrite Hnil in Hp.
  by apply elem_of_nil in Hp.
Qed.

Lemma groupby_keys (df : list (string * string)) :
  (groupby df).*1 = sorted_keys df.
Proof.
  unfold groupby. rewrite <- list_fmap_compose. simpl.
  induction (sorted_keys df) as [|k ks IH]; csimpl; [done | by f_equal].
Qed.

(** C7. Accession fan-out: when the table holds the complete rows
    (S1, A1) and (S1, A2) and both accessions are targets, the mapping of
    [get_sifts_mapping] has A1 and A2 as keys and lists S1 under each. *)
Theorem sifts_fan_out_preserved (table : list row) (targets : list string)
    (S1 A1 A2 : string) :
  (Some S1, Some A1) ∈ table ->
  (Some S1, Some A2) ∈ table ->
  A1 ∈ targets ->
  A2 ∈ targets ->
  exists uniprot_to_pdb_map pdbs1 pdbs2,
    get_sifts_mapping (Some table) targets = Some uniprot_to_pdb_map /\
    dict_get A1 uniprot_to_pdb_map = Some pdbs1 /\ S1 ∈ pdbs1 /\
    dict_get A2 uniprot_to_pdb_map = Some pdbs2 /\ S1 ∈ pdbs2.
Proof.
  intros H1 H2 T1 T2. simpl.
  set (df := drop_duplicates [] (isin_rows targets (dropna table))).
  assert (Hkey : forall A, (Some S1, Some A) ∈ table -> A ∈ targets ->
            exists pdbs, dict_get A (groupby df) = Some pdbs /\ S1 ∈ pdbs).
  { intros A HA HT.
    assert (Hrow : (S1, A) ∈ df) by by apply elem_of_target_rows.
    rewrite dict_get_groupby, bool_decide_eq_true_2
      by (apply elem_of_sorted_keys; by exists S1).
    eexists; split; [done|].
    apply list_elem_of_fmap. exists (S1, A). split; [done|].
    by apply list_elem_of_filter. }
  destruct (Hkey A1 H1 T1) as (pdbs1 & G1 & I1).
  destruct (Hkey A2 H2 T2) as (pdbs2 & G2 & I2).
  by exists (groupby df), pdbs1, pdbs2.
Qed.

Lemma sifts_fan_out_preserved_witness :
  exists uniprot_to_pdb_map pdbs1 pdbs2,
    get_sifts_mapping
      (Some [(Some "1abc", Some "P12345"); (Some "1abc", Some "Q99999");
             (Some "2xyz", None)])
      ["Q99999"; "P12345"] = Some uniprot_to_pdb_map /\
    dict_get "P12345" uniprot_to_pdb_map = Some pdbs1 /\ "1abc" ∈ pdbs1 /\
    dict_get "Q99999" uniprot_to_pdb_map = Some pdbs2 /\ "1abc" ∈ pdbs2.
Proof.
  apply sifts_fan_out_preserved;
    apply (bool_decide_unpack _); vm_compute; reflexivity.
Defined.

(** C8. Absent, not empty: a target accession with no complete row in the
    table is not a key of the mapping; every key that is present has a
    non-empty list, and each structure in it comes from a row of that very
    accession. *)
Theorem sifts_absent_not_empty (table : list row) (targets : list string)
    (A : string) :
  A ∈ targets ->
  (forall S, (Some S, Some A) ∉ table) ->
  exists uniprot_to_pdb_map,
    get_sifts_mapping (Some table) targets = Some uniprot_to_pdb_map /\
    (A ∉ uniprot_to_pdb_map.*1) /\
    dict_get A uniprot_to_pdb_map = None /\
    forall B pdbs,
      dict_get B uniprot_to_pdb_map = Some pdbs ->
      pdbs <> [] /\ forall S, S ∈ pdbs -> (Some S, Some B) ∈ table.
Proof.
  intros HT Hno. simpl.
  set (df := drop_duplicates [] (isin_rows targets (dropna table))).
  assert (HA : A ∉ sorted_keys df).
  { intros Hin. apply elem_of_sorted_keys in Hin as [S HS].
    apply elem_of_target_rows in HS as [HS _]. by apply (Hno S). }
  exists (groupby df). split; [done|]. split; [by rewrite groupby_keys|].
  split; [by rewrite dict_get_groupby, bool_decide_eq_false_2|].
  intros B pdbs HB. apply groupby_lookup_Some in HB as [Hne Hmem].
  split; [done|]. intros S HS. apply Hmem in HS.
  by apply elem_of_target_rows in HS as [HS _].
Qed.

Lemma sifts_absent_not_empty_witness :
  exists uniprot_to_pdb_map,
    get_sifts_mapping
      (Some [(Some "1abc", Some "P12345"); (None, Some "Q99999");
             (Some "2xyz", Some "P12345")])
      ["Q99999"; "P12345"] = Some uniprot_to_pdb_map /\
    ("Q99999" ∉ uniprot_to_pdb_map.*1) /\
    dict_get "Q99999" uniprot_to_pdb_map = None /\
    forall B pdbs,
      dict_get B uniprot_to_pdb_map = Some pdbs ->
      pdbs <> [] /\
      forall S, S ∈ pdbs ->
        (Some S, Some B) ∈
          [(Some "1abc", Some "P12345"); (None, Some "Q99999");
           (Some "2xyz", Some "P12345")].
Proof.
  apply sifts_absent_not_empty.
  - apply (bool_decide_unpack _); vm_compute; reflexivity.
  - intros S HS. by repeat (apply elem_of_cons in HS as [HS|HS]; [done|]); apply elem_of_nil in HS.
Defined.

(** ** The quality filter *)

(** The records a stretch of the loop appends do not depend on what was
    appended before. *)
Lemma check_entry_app (entry : value) (acc : list value) :
  check_entry entry acc =
  check_entry entry [] ≫= fun out => Ok (acc ++ out).
Proof.
  unfold check_entry. destruct entry; try (simpl; by rewrite app_nil_r).
  all: bind_steps; try split_if; bind_steps; simpl; by rewrite ?app_nil_r.
Qed.

Lemma check_entries_app (entries : list value) (acc : list value) :
  check_entries entries acc =
  check_entries entries [] ≫= fun out => Ok (acc ++ out).
Proof.
  revert acc. induction entries as [|entry rest IH]; intros acc; simpl.
  - by rewrite app_nil_r.
  - rewrite check_entry_app, !bind_assoc. apply bind_ext. intros out. simpl.
    rewrite (IH (acc ++ out)), (IH out), bind_assoc.
    apply bind_ext. intros out'. simpl. by rewrite app_assoc.
Qed.

Lemma handle_results_app (results : value) (acc : list value) :
  handle_results results acc =
  handle_results results [] ≫= fun out => Ok (acc ++ out).
Proof.
  unfold handle_results. bind_steps. split_if.
  - bind_steps. simpl. by rewrite app_nil_r.
  - bind_steps. split_if.
    + bind_steps. apply check_entries_app.
    + simpl. by rewrite app_nil_r.
Qed.

(** An error reported by the service: line 194 leaves the batch without
    appending. *)
Lemma handle_results_graphql_error (results : value) (acc : list value) :
  graphql_error results -> handle_results results acc = Ok acc.
Proof.
  intros (d & e & rest & msg & -> & Herr & Hmsg).
  unfold handle_results, has_errors, error_message. simpl.
  rewrite Herr. simpl. by rewrite Hmsg.
Qed.

Lemma query_batch_outcome (r : reply) (out acc : list value) :
  batch_outcome r out -> query_batch r acc = Ok (acc ++ out).
Proof.
  intros [-> | -> | results -> Herr | results accepted -> _ Hrun]; simpl.
  - by rewrite app_nil_r.
  - by rewrite app_nil_r.
  - rewrite app_nil_r. by apply handle_results_graphql_error.
  - by rewrite handle_results_app, Hrun.
Qed.

Lemma query_batches_outcomes (post : nat -> list string -> reply)
    (bs : list (list string)) (outs : list (list value)) (n : nat)
    (acc : list value) :
  length outs = length bs ->
  (forall i batch out, bs !! i = Some batch -> outs !! i = Some out ->
     batch_outcome (post (n + i) batch) out) ->
  query_batches post n bs acc = Ok (acc ++ concat outs).
Proof.
  revert outs n acc.
  induction bs as [|batch bs IH]; intros [|out outs] n acc Hlen Hall;
    simpl in *; try done.
  - by rewrite app_nil_r.
  - rewrite (query_batch_outcome _ out).
    + simpl. rewrite (IH outs (S n) (acc ++ out)).
      * by rewrite app_assoc.
      * by injection Hlen.
      * intros i b o Hb Ho. replace (S n + i) with (n + S i) by lia.
        by apply Hall.
    + replace n with (n + 0) at 1 by lia. by apply Hall.
Qed.

(** C4. When every batch either fails (transport error, body that does not
    decode, GraphQL-level error) or succeeds, [filter_pdbs_by_quality]
    raises nothing and returns, in batch order, exactly the records the
    succeeding batches accept; a failing batch contributes the empty
    list. *)
Theorem filter_batch_isolation (post : nat -> list string -> reply)
    (pdb_ids : list string) (outs : list (list value)) :
  length outs = length (batches 500 pdb_ids) ->
  (forall n batch out,
      batches 500 pdb_ids !! n = Some batch -> outs !! n = Some out ->
      batch_outcome (post n batch) out) ->
  filter_pdbs_by_quality post pdb_ids = Ok (concat outs).
Proof.
  intros Hlen Hall. unfold filter_pdbs_by_quality.
  by rewrite (query_batches_outcomes post _ outs 0 []).
Qed.

Lemma filter_batch_isolation_witness :
  length (batches 500 sample_ids) = 5 /\
  sample_outs !! 2 = Some [] /\
  filter_pdbs_by_quality sample_post sample_ids = Ok (concat sample_outs).
Proof.
  split; [vm_compute; reflexivity|]. split; [vm_compute; reflexivity|].
  apply filter_batch_isolation.
  - vm_compute. reflexivity.
  - intros n batch out Hb Ho.
    destruct n as [|[|[|[|[|n]]]]]; vm_compute in Hb, Ho; simplify_eq.
    + eapply batch_succeeded; [reflexivity | | ]; vm_compute; reflexivity.
    + eapply batch_succeeded; [reflexivity | | ]; vm_compute; reflexivity.
    + by apply batch_transport_error.
    + eapply batch_succeeded; [reflexivity | | ]; vm_compute; reflexivity.
    + eapply batch_succeeded; [reflexivity | | ]; vm_compute; reflexivity.
Defined.

(** *** Order of the accepted records *)

Lemma concat_chunks {A : Type} (b m : nat) (l : list A) :
  length l <= m * b ->
  concat (map (fun k => take b (drop (k * b) l)) (seq 0 m)) = l.
Proof.
  revert l. induction m as [|m IH]; intros l Hlen; simpl in *.
  - by destruct l; [|simpl in Hlen; lia].
  - etrans; [|apply (take_drop b l)]. f_equal.
    rewrite <- fmap_S_seq, <- list_fmap_compose.
    rewrite <- (IH (drop b l)) by (rewrite length_drop; lia).
    f_equal. apply list_fmap_ext. intros i k _. simpl.
    by rewrite drop_drop.
Qed.

Lemma concat_batches {A : Type} (batch_size : nat) (ids : list A) :
  0 < batch_size -> concat (batches batch_size ids) = ids.
Proof.
  intros Hpos. unfold batches, py_range, slice.
  rewrite <- list_fmap_compose.
  etrans; [|apply (concat_chunks batch_size
                     ((length ids + batch_size - 1) / batch_size) ids)].
  - f_equal. apply list_fmap_ext. intros i k _. simpl.
    by replace (k * batch_size + batch_size - k * batch_size)
      with batch_size by lia.
  - pose proof (Nat.div_mod_eq (length ids + batch_size - 1) batch_size).
    pose proof (Nat.mod_upper_bound (length ids + batch_size - 1) batch_size).
    nia.
Qed.

Lemma check_entry_key (entry : value) (out : list value) :
  check_entry entry [] = Ok out ->
  omap record_key out `sublist_of` omap entry_key [entry].
Proof.
  unfold check_entry. destruct entry as [| | | | |d];
    try (intros [= <-]; apply sublist_nil_l); try done.
  intros Hrun.
  repeat match type of Hrun with
         | (?m ≫= _) = Ok _ => destruct m; simpl in Hrun; [|done]
         end.
  match type of Hrun with
  | (if ?b then _ else _) = _ => destruct b
  end; [|injection Hrun as <-; apply sublist_nil_l].
  unfold py_item in Hrun. csimpl.
  destruct (assoc "rcsb_id" d) as [rcsb_id|]; [|done]. simpl in Hrun.
  injection Hrun as <-. csimpl. by destruct rcsb_id.
Qed.

Lemma check_entries_keys (entries out : list value) :
  check_entries entries [] = Ok out ->
  omap record_key out `sublist_of` omap entry_key entries.
Proof.
  revert out. induction entries as [|entry rest IH]; intros out Hrun.
  - injection Hrun as <-. apply sublist_nil_l.
  - change (entry :: rest) with ([entry] ++ rest). rewrite omap_app.
    simpl in Hrun.
    destruct (check_entry entry []) as [o1|] eqn:H1; [|done].
    simpl in Hrun. rewrite check_entries_app in Hrun.
    destruct (check_entries rest []) as [o2|] eqn:H2; [|done].
    simpl in Hrun. injection Hrun as <-. rewrite omap_app.
    apply sublist_app; [by apply check_entry_key | by apply IH].
Qed.

Lemma handle_results_keys (results : value) (out : list value) :
  handle_results results [] = Ok out ->
  omap record_key out `sublist_of`
    omap entry_key (reply_entries (Json results)).
Proof.
  unfold handle_results.
  destruct (has_errors results) as [[|]|]; simpl; [| |done].
  { destruct (error_message results); simpl; [|done].
    intros [= <-]. apply sublist_nil_l. }
  destruct results as [| | | | |d]; simpl; try done.
  destruct (assoc "data" d) as [data|]; simpl;
    [|intros [= <-]; apply sublist_nil_l].
  destruct (truthy data) eqn:Htruthy; simpl;
    [|intros [= <-]; apply sublist_nil_l].
  destruct data as [| | | |l|dd]; simpl; try done.
  - destruct (is_substring _ _); simpl; [done|].
    intros [= <-]. apply sublist_nil_l.
  - destruct (existsb _ _); simpl; [done|].
    intros [= <-]. apply sublist_nil_l.
  - destruct (assoc "entries" dd) as [entries|]; simpl.
    + destruct entries as [| | |s|es|ed]; simpl; try done.
      * destruct s; simpl; [|done]. intros [= <-]. apply sublist_nil_l.
      * apply check_entries_keys.
      * destruct ed; simpl; [|done]. intros [= <-]. apply sublist_nil_l.
    + intros [= <-]. apply sublist_nil_l.
Qed.

Lemma batch_outcome_keys (r : reply) (out : list value) :
  batch_outcome r out ->
  omap record_key out `sublist_of` omap entry_key (reply_entries r).
Proof.
  intros [-> | -> | results -> Herr | results accepted -> _ Hrun];
    try apply sublist_nil_l.
  by apply handle_results_keys.
Qed.

Lemma query_batches_ordered (post : nat -> list string -> reply)
    (bs : list (list string)) (n : nat) (acc : list value) :
  (forall i batch, bs !! i = Some batch ->
     (exists out, batch_outcome (post (n + i) batch) out) /\
     omap entry_key (reply_entries (post (n + i) batch))
       `sublist_of` (upper <$> batch)) ->
  exists out,
    query_batches post n bs acc = Ok (acc ++ out) /\
    omap record_key out `sublist_of` (upper <$> concat bs).
Proof.
  revert n acc. induction bs as [|batch bs IH]; intros n acc Hall; simpl.
  - exists []. rewrite app_nil_r. split; [done | apply sublist_nil_l].
  - destruct (Hall 0 batch eq_refl) as [[out Hout] Hord].
    replace (n + 0) with n in Hout, Hord by lia.
    destruct (IH (S n) (acc ++ out)) as (out' & Hrun & Hsub).
    { intros i b Hb. replace (S n + i) with (n + S i) by lia.
      by apply Hall. }
    exists (out ++ out').
    rewrite (query_batch_outcome _ out) by done. simpl.
    rewrite Hrun, app_assoc. split; [done|].
    rewrite omap_app, fmap_app. apply sublist_app; [|done].
    etrans; [by apply batch_outcome_keys | done].
Qed.

(** C10, amended.  The accepted records are appended batch by batch, the
    batches being the contiguous slices of the input in order, and within
    a batch in the order of the response.  Hence, when every batch fails
    or succeeds and every response lists its entries in the order of the
    ids requested, the ids of the accepted records (upper-cased, as the
    selector reads them) follow the order of the input list. *)
Theorem filter_keeps_request_order (post : nat -> list string -> reply)
    (pdb_ids : list string) :
  (forall n batch,
      batches 500 pdb_ids !! n = Some batch ->
      (exists out, batch_outcome (post n batch) out) /\
      omap entry_key (reply_entries (post n batch))
        `sublist_of` (upper <$> batch)) ->
  exists accepted,
    filter_pdbs_by_quality post pdb_ids = Ok accepted /\
    omap record_key accepted `sublist_of` (upper <$> pdb_ids).
Proof.
  intros Hall. unfold filter_pdbs_by_quality.
  destruct (query_batches_ordered post (batches 500 pdb_ids) 0 [] Hall)
    as (out & Hrun & Hsub).
  exists out. split; [done|]. by rewrite concat_batches in Hsub by lia.
Qed.

Lemma filter_keeps_request_order_witness :
  exists accepted,
    filter_pdbs_by_quality ordered_post ["1abc"; "2abc"; "3abc"]
    = Ok accepted /\
    omap record_key accepted `sublist_of`
      (upper <$> ["1abc"; "2abc"; "3abc"]).
Proof.
  apply filter_keeps_request_order. intros n batch Hb.
  destruct n as [|n]; vm_compute in Hb; simplify_eq. split.
  - eexists. eapply batch_succeeded; reflexivity.
  - vm_compute. apply sublist_skip, sublist_skip, sublist_skip, sublist_nil.
Defined.

(** C10, as stated, fails: the records come out in the order of the
    response, and a response in another order than the request is
    accepted as it is. *)
Lemma filter_order_counterexample :
  ~ (forall (post : nat -> list string -> reply) (pdb_ids : list string)
       (accepted : list value),
       filter_pdbs_by_quality post pdb_ids = Ok accepted ->
       omap record_key accepted `sublist_of` (upper <$> pdb_ids)).
Proof.
  intros H. specialize (H reversed_post ["1abc"; "2abc"] _ eq_refl).
  vm_compute in H.
  apply sublist_cons_l in H as (k1 & k2 & Hk & Hsub).
  destruct k1 as [|? [|? [|? ?]]]; simplify_eq/=.
  by apply sublist_nil_r in Hsub.
Qed.

(** *** The quality predicate *)

(** On an entry of the shape the service gives, with a non-null
    [rcsb_entry_info] object, the filter appends the record exactly when
    the predicate of the specification holds. *)
Lemma check_entry_quality_predicate (id : string)
    (methods : option (list (option string)))
    (resolutions : option (list (option Q))) (acc : list value) :
  check_entry (shaped_entry id methods resolutions) acc =
  Ok (match quality_predicate methods resolutions with
      | Some (m, q) =>
          acc ++ [dict_of {| pdb_id := id; method := m; resolution := q;
                             uniprot_id := None |}]
      | None => acc
      end).
Proof.
  unfold quality_predicate, first_of.
  destruct methods as [[|[m|] ms]|]; destruct resolutions as [[|[q|] rs]|];
    try reflexivity.
  all: unfold check_entry, shaped_entry; simpl.
  all: unfold EXPERIMENTAL_METHODS; simpl; rewrite ?orb_false_r.
  all: rewrite ?eqb_decide.
  all: destruct (decide (m = "X-RAY DIFFRACTION")) as [->|Hne].
  all: rewrite ?bool_decide_eq_true_2 by set_solver.
  all: rewrite ?bool_decide_eq_false_2 by set_solver.
  all: simpl; try done.
  all: by destruct (Qle_bool q MAX_RESOLUTION).
Qed.

Example accepts_resolution_3_0 :
  check_entry (sample_entry "1ABC" "X-RAY DIFFRACTION" 3%Q) [] =
  Ok [sample_record "1ABC" 3%Q].
Proof. reflexivity. Qed.

Example rejects_resolution_3_01 :
  check_entry (sample_entry "1ABC" "X-RAY DIFFRACTION" (301 # 100)%Q) [] =
  Ok [].
Proof. reflexivity. Qed.

Example rejects_other_method :
  check_entry (sample_entry "1ABC" "ELECTRON MICROSCOPY" 1%Q) [] = Ok [].
Proof. reflexivity. Qed.

Example skips_null_entry : check_entry VNone [] = Ok [].
Proof. reflexivity. Qed.

Example rejects_absent_method_and_resolution :
  check_entry (VDict [("rcsb_id", VStr "1ABC")]) [] = Ok [] /\
  check_entry (shaped_entry "1ABC" None None) [] = Ok [] /\
  check_entry (shaped_entry "1ABC" (Some []) (Some [])) [] = Ok [].
Proof. repeat split. Qed.

(** C3, where the code departs from it: an entry whose [rcsb_entry_info]
    is null has no resolution, yet line 200 calls [.get] on [None]; the
    [AttributeError] is none of the exceptions line 203 catches, so it
    leaves [filter_pdbs_by_quality], and the record accepted before it in
    the same batch is lost with the run. *)
Theorem filter_null_entry_info_raises :
  check_entry null_info_entry [] = Raise AttributeError /\
  filter_pdbs_by_quality null_info_post ["2xyz"; "1abc"]
  = Raise AttributeError.
Proof. split; reflexivity. Qed.

(** ** The selector *)

Lemma Qltb_lt (x y : Q) : Qltb x y = true <-> (x < y)%Q.
Proof.
  unfold Qltb. rewrite negb_true_iff. split.
  - intros H. apply Qnot_le_lt. intros Hle.
    apply Qle_bool_iff in Hle. congruence.
  - intros H. apply not_true_is_false. intros Hle.
    apply Qle_bool_iff in Hle. by apply Qlt_not_le in H.
Qed.

Lemma Qltb_ge (x y : Q) : Qltb x y = false <-> (y <= x)%Q.
Proof.
  unfold Qltb. rewrite negb_false_iff. apply Qle_bool_iff.
Qed.

Section min_by_resolution.
Variable h : heap.

Let r (x : loc) : Q := resolution (h x).
Let keep (best y : loc) : loc :=
  if Qltb (resolution (h y)) (resolution (h best)) then y else best.

Lemma fold_min_spec (rest : list loc) (x b : loc) :
  fold_left keep rest x = b ->
  (b = x /\ Forall (fun y => (r x <= r y)%Q) rest) \/
  (exists r1 r2, rest = r1 ++ b :: r2 /\ (r b < r x)%Q /\
     Forall (fun y => (r b < r y)%Q) r1 /\
     Forall (fun y => (r b <= r y)%Q) r2).
Proof.
  revert x. induction rest as [|y rest IH]; intros x; simpl.
  - intros <-. left. by split.
  - unfold keep at 2. destruct (Qltb _ _) eqn:Hlt; intros Hb.
    + apply Qltb_lt in Hlt. fold (r y) (r x) in Hlt. right.
      destruct (IH _ Hb) as [[-> Hall]|(r1 & r2 & -> & Hby & H1 & H2)].
      * exists [], rest. by repeat split.
      * exists (y :: r1), r2. repeat split; [|constructor|]; try done.
        by apply Qlt_trans with (r y).
    + apply Qltb_ge in Hlt. fold (r y) (r x) in Hlt.
      destruct (IH _ Hb) as [[-> Hall]|(r1 & r2 & -> & Hbx & H1 & H2)].
      * left. split; [done|]. by constructor.
      * right. exists (y :: r1), r2. repeat split; [|constructor|]; try done.
        by apply Qlt_le_trans with (r x).
Qed.

(** [min] returns the first of the items of least resolution. *)
Lemma select_best_structure_first_min (l : list loc) (b : loc) :
  select_best_structure h l = Some b ->
  exists l1 l2, l = l1 ++ b :: l2 /\
    Forall (fun y => (r b < r y)%Q) l1 /\
    Forall (fun y => (r b <= r y)%Q) l2.
Proof.
  destruct l as [|x rest]; [done|]. simpl. intros [= Hb].
  destruct (fold_min_spec _ _ _ Hb)
    as [[-> Hall]|(r1 & r2 & -> & Hbx & H1 & H2)].
  - by exists [], rest.
  - exists (x :: r1), r2. repeat split; [|done]. by constructor.
Qed.

Lemma select_best_structure_is_Some (l : list loc) :
  l <> [] -> is_Some (select_best_structure h l).
Proof. destruct l; [done|]. intros _. by eexists. Qed.
End min_by_resolution.

Lemma select_best_structure_ext (h1 h2 : heap) (l : list loc) :
  (forall y, resolution (h1 y) = resolution (h2 y)) ->
  select_best_structure h1 l = select_best_structure h2 l.
Proof.
  intros Hr. destruct l as [|x rest]; [done|]. simpl. f_equal.
  revert x. induction rest as [|y rest IH]; intros x; simpl; [done|].
  by rewrite !Hr, IH.
Qed.

(** *** The reverse index *)

Lemma fold_index_pairs (uniprot_map : list (string * list string))
    (index : gmap string string) :
  fold_left
    (fun m item =>
       fold_left (fun m pdb => <[upper pdb := item.1]> m) item.2 m)
    uniprot_map index =
  fold_left index_insert (index_pairs uniprot_map) index.
Proof.
  revert index. induction uniprot_map as [|[u pdbs] m IH]; intros index.
  - done.
  - unfold index_pairs in *. simpl. rewrite fold_left_app, IH. f_equal.
    clear IH. revert index.
    induction pdbs as [|pdb pdbs IHp]; intros index; simpl; [done|].
    by rewrite IHp.
Qed.

Lemma pdb_to_uniprot_map_pairs (uniprot_map : list (string * list string)) :
  pdb_to_uniprot_map uniprot_map =
  fold_left index_insert (index_pairs uniprot_map) ∅.
Proof. apply fold_index_pairs. Qed.

Lemma elem_of_index_pairs (uniprot_map : list (string * list string))
    (pdb u : string) :
  (pdb, u) ∈ index_pairs uniprot_map <->
  exists pdbs, (u, pdbs) ∈ uniprot_map /\ pdb ∈ pdbs.
Proof.
  unfold index_pairs. rewrite list_elem_of_bind. split.
  - intros ([u' pdbs] & Hin & Hitem). apply list_elem_of_fmap in Hin.
    destruct Hin as (pdb' & [= -> ->] & Hin). by exists pdbs.
  - intros (pdbs & Hitem & Hin). exists (u, pdbs). split; [|done].
    apply list_elem_of_fmap. by exists pdb.
Qed.



Lemma fold_index_Some (pairs : list (string * string))
    (index : gmap string string) (K u : string) :
  fold_left index_insert pairs index !! K = Some u ->
  index !! K = Some u \/ exists pdb, (pdb, u) ∈ pairs /\ upper pdb = K.
Proof.
  revert index. induction pairs as [|[pdb u'] pairs IH]; intros index; simpl.
  - by left.
  - intros H. apply IH in H as [H|(pdb' & Hin & HK)].
    + unfold index_insert in H. simpl in H.
      destruct (decide (upper pdb = K)) as [<-|Hne].
      * rewrite lookup_insert_eq in H. injection H as ->.
        right. exists pdb. split; [set_solver | done].
      * rewrite lookup_insert_ne in H by done. by left.
    + right. exists pdb'. split; [set_solver | done].
Qed.


Lemma pdb_to_uniprot_map_Some (uniprot_map : list (string * list string))
    (K u : string) :
  pdb_to_uniprot_map uniprot_map !! K = Some u ->
  exists pdbs pdb, (u, pdbs) ∈ uniprot_map /\ pdb ∈ pdbs /\ upper pdb = K.
Proof.
  rewrite pdb_to_uniprot_map_pairs. intros H.
  apply fold_index_Some in H as [H|(pdb & Hin & HK)].
  - by rewrite lookup_empty in H.
  - apply elem_of_index_pairs in Hin as (pdbs & Hitem & Hin).
    by exists pdbs, pdb.
Qed.

(** *** Grouping *)

Lemma dict_get_dict_append (k u : string) (x : loc)
    (d : list (string * list loc)) :
  dict_get k (dict_append u x d) =
  if bool_decide (k = u) then Some (default [] (dict_get u d) ++ [x])
  else dict_get k d.
Proof.
  induction d as [|[k' xs] d IH]; simpl.
  - rewrite eqb_decide. destruct (decide (u = k)) as [->|Hne].
    + by rewrite !bool_decide_eq_true_2.
    + by rewrite !bool_decide_eq_false_2.
  - rewrite !eqb_decide. destruct (decide (k' = u)) as [->|Hne].
    + rewrite (bool_decide_eq_true_2 (u = u)) by done. simpl.
      rewrite eqb_decide. destruct (decide (u = k)) as [->|Hne].
      * by rewrite !bool_decide_eq_true_2.
      * by rewrite !bool_decide_eq_false_2.
    + rewrite (bool_decide_eq_false_2 (k' = u)) by done. simpl.
      rewrite eqb_decide, IH. destruct (decide (k' = k)) as [->|Hne'].
      * rewrite bool_decide_eq_true_2 by done.
        by rewrite bool_decide_eq_false_2.
      * by rewrite (bool_decide_eq_false_2 (k' = k)).
Qed.

Lemma dict_append_keys (u : string) (x : loc) (d : list (string * list loc)) :
  (dict_append u x d).*1 =
  if bool_decide (u ∈ d.*1) then d.*1 else d.*1 ++ [u].
Proof.
  induction d as [|[k' xs] d IH]; simpl.
  - done.
  - rewrite eqb_decide. destruct (decide (k' = u)) as [->|Hne].
    + rewrite !bool_decide_eq_true_2; [done | set_solver | done].
    + rewrite bool_decide_eq_false_2 by done. csimpl. rewrite IH.
      destruct (decide (u ∈ d.*1)).
      * rewrite !bool_decide_eq_true_2; [done | set_solver | done].
      * rewrite !bool_decide_eq_false_2; [done | set_solver | done].
Qed.

Lemma dict_append_NoDup (u : string) (x : loc) (d : list (string * list loc)) :
  NoDup d.*1 -> NoDup (dict_append u x d).*1.
Proof.
  intros Hd. rewrite dict_append_keys. case_bool_decide as Hu; [done|].
  apply list.NoDup_app. repeat split; [done| |apply NoDup_singleton].
  intros k Hk Hk'. apply list_elem_of_singleton in Hk'. by subst.
Qed.

Lemma dict_get_elem_of {V : Type} (d : list (string * V)) (k : string)
    (v : V) :
  NoDup d.*1 -> (k, v) ∈ d <-> dict_get k d = Some v.
Proof.
  induction d as [|[k' v'] d IH]; simpl; intros Hd.
  - split; [intros H; by apply elem_of_nil in H | done].
  - apply list.NoDup_cons in Hd as [Hk' Hd]. rewrite eqb_decide.
    rewrite elem_of_cons, IH by done.
    destruct (decide (k' = k)) as [->|Hne].
    + rewrite bool_decide_eq_true_2 by done. split.
      * intros [[= ->]|Hget]; [done|]. apply IH in Hget; [|done].
        exfalso. apply Hk'. apply list_elem_of_fmap. by exists (k, v).
      * intros [= ->]. by left.
    + rewrite bool_decide_eq_false_2 by done. naive_solver.
Qed.

Section grouping.
Variables (h : heap) (index : gmap string string).

Let files (u : string) (l : list loc) : list loc :=
  filter (fun c => accession_of index (h c) = Some u) l.

Lemma group_by_uniprot_snoc (l : list loc) (x : loc) :
  group_by_uniprot h index (l ++ [x]) =
  match accession_of index (h x) with
  | Some uniprot_id => dict_append uniprot_id x (group_by_uniprot h index l)
  | None => group_by_uniprot h index l
  end.
Proof. unfold group_by_uniprot. by rewrite fold_left_app. Qed.

Lemma group_by_uniprot_NoDup (l : list loc) :
  NoDup (group_by_uniprot h index l).*1.
Proof.
  induction l as [|x l IH] using rev_ind.
  - apply NoDup_nil_2.
  - rewrite group_by_uniprot_snoc. destruct (accession_of _ _); [|done].
    by apply dict_append_NoDup.
Qed.

Lemma dict_get_group_by_uniprot (l : list loc) (u : string) :
  dict_get u (group_by_uniprot h index l) =
  match files u l with
  | [] => None
  | xs => Some xs
  end.
Proof.
  induction l as [|x l IH] using rev_ind.
  - done.
  - rewrite group_by_uniprot_snoc. unfold files in *.
    rewrite list.filter_app, list.filter_cons, list.filter_nil.
    destruct (accession_of index (h x)) as [u'|] eqn:Hx.
    + rewrite dict_get_dict_append.
      destruct (decide (u = u')) as [->|Hne].
      * rewrite bool_decide_eq_true_2 by done. rewrite IH.
        rewrite decide_True by done.
        by destruct (filter _ l).
      * rewrite bool_decide_eq_false_2 by done. rewrite IH.
        rewrite decide_False by congruence. by rewrite app_nil_r.
    + rewrite decide_False by congruence. by rewrite app_nil_r.
Qed.

(** The groups: a key per accession that has a record filed under it, and
    under each key the records filed under it, in the order of the
    list. *)
Lemma elem_of_group_by_uniprot (l : list loc) (u : string)
    (xs : list loc) :
  (u, xs) ∈ group_by_uniprot h index l <-> xs <> [] /\ xs = files u l.
Proof.
  rewrite dict_get_elem_of by apply group_by_uniprot_NoDup.
  rewrite dict_get_group_by_uniprot.
  destruct (files u l) eqn:Hf; naive_solver.
Qed.
End grouping.

(** *** Selection *)

Lemma omap_ext_eq {A B : Type} (f g : A -> option B) (l : list A) :
  (forall x, f x = g x) -> omap f l = omap g l.
Proof.
  intros Hfg. induction l as [|x l IH]; csimpl; [done|].
  by rewrite Hfg, IH.
Qed.

Lemma heap_insert_eq (h : heap) (x : loc) (r : pdb_info) :
  (<[x := r]> h) x = r.
Proof. apply fn_lookup_insert. Qed.

Lemma heap_insert_ne (h : heap) (x y : loc) (r : pdb_info) :
  x <> y -> (<[x := r]> h) y = h y.
Proof. apply fn_lookup_insert_ne. Qed.

Lemma select_fold_spec (groups : list (string * list loc))
    (out0 : list loc) (h0 : heap) :
  let st := fold_left select_step groups (out0, h0) in
  let bests := omap (fun g => select_best_structure h0 g.2) groups in
  st.1 = out0 ++ bests /\
  (forall y, pdb_id (st.2 y) = pdb_id (h0 y) /\
             method (st.2 y) = method (h0 y) /\
             resolution (st.2 y) = resolution (h0 y)) /\
  (forall y, y ∉ bests -> st.2 y = h0 y) /\
  (NoDup bests ->
   forall g b, g ∈ groups -> select_best_structure h0 g.2 = Some b ->
     st.2 b = set_uniprot_id (h0 b) g.1).
Proof.
  revert out0 h0. induction groups as [|g groups IH]; intros out0 h0; csimpl.
  - rewrite app_nil_r. repeat split; try done.
    intros _ g b Hg. by apply elem_of_nil in Hg.
  - destruct (select_best_structure h0 g.2) as [b0|] eqn:Hb0.
    + set (h1 := <[b0 := set_uniprot_id (h0 b0) g.1]> h0).
      assert (Hstep : select_step (out0, h0) g = (out0 ++ [b0], h1))
        by (unfold select_step; simpl; by rewrite Hb0).
      rewrite Hstep. clear Hstep.
      assert (Hfields : forall y,
        pdb_id (h1 y) = pdb_id (h0 y) /\ method (h1 y) = method (h0 y) /\
        resolution (h1 y) = resolution (h0 y)).
      { intros y. unfold h1. destruct (decide (b0 = y)) as [->|Hne].
        - by rewrite heap_insert_eq.
        - by rewrite heap_insert_ne. }
      assert (Hsame :
        omap (fun g => select_best_structure h1 g.2) groups =
        omap (fun g => select_best_structure h0 g.2) groups).
      { apply omap_ext_eq. intros g'. apply select_best_structure_ext.
        intros y. apply Hfields. }
      destruct (IH (out0 ++ [b0]) h1) as (Hout & Hfr & Hother & Hset).
      rewrite Hsame in Hout, Hother, Hset.
      split; [by rewrite Hout, <- app_assoc|].
      split.
      { intros y. destruct (Hfr y) as (-> & -> & ->). apply Hfields. }
      split.
      { intros y Hy. apply not_elem_of_cons in Hy as [Hne Hy].
        rewrite Hother by done. unfold h1. by rewrite heap_insert_ne. }
      intros Hnd g' b Hg' Hb. apply list.NoDup_cons in Hnd as [Hb0n Hnd].
      apply elem_of_cons in Hg' as [->|Hg'].
      * assert (b = b0) as -> by congruence.
        rewrite Hother by done. unfold h1. by rewrite heap_insert_eq.
      * assert (Hb1 : select_best_structure h1 g'.2 = Some b).
        { rewrite <- Hb. apply select_best_structure_ext.
          intros y. apply Hfields. }
        rewrite (Hset Hnd g' b Hg' Hb1). unfold h1.
        destruct (decide (b0 = b)) as [->|Hne].
        -- by rewrite heap_insert_eq.
        -- by rewrite heap_insert_ne.
    + assert (Hstep : select_step (out0, h0) g = (out0, h0))
        by (unfold select_step; simpl; by rewrite Hb0).
      rewrite Hstep. clear Hstep.
      destruct (IH out0 h0) as (Hout & Hfr & Hother & Hset).
      repeat split; try done; try apply Hfr.
      intros Hnd g' b Hg' Hb. apply elem_of_cons in Hg' as [->|Hg'].
      * congruence.
      * by apply Hset.
Qed.

Section selector.
Variables (h : heap) (high_quality_pdb_list : list loc)
          (uniprot_map : list (string * list string)).

Let index := pdb_to_uniprot_map uniprot_map.
Let groups := group_by_uniprot h index high_quality_pdb_list.
Let out := (group_and_select_best_structures h high_quality_pdb_list
              uniprot_map).1.
Let h' := (group_and_select_best_structures h high_quality_pdb_list
             uniprot_map).2.
Let files (u : string) : list loc :=
  filter (fun c => accession_of index (h c) = Some u) high_quality_pdb_list.
Let bests := omap (fun g => select_best_structure h g.2) groups.

Lemma best_in_group (u : string) (b : loc) :
  select_best_structure h (files u) = Some b ->
  b ∈ high_quality_pdb_list /\ accession_of index (h b) = Some u.
Proof.
  intros Hb. apply select_best_structure_first_min in Hb
    as (l1 & l2 & Hsplit & _).
  assert (Hin : b ∈ files u) by (rewrite Hsplit; set_solver).
  unfold files in Hin. apply list_elem_of_filter in Hin. naive_solver.
Qed.

Lemma groups_files (g : string * list loc) :
  g ∈ groups -> g.2 <> [] /\ g.2 = files g.1.
Proof.
  destruct g as [u xs]. intros Hg.
  by apply elem_of_group_by_uniprot in Hg.
Qed.

Lemma bests_accessions :
  (fun b => accession_of index (h b)) <$> bests = (Some ∘ fst) <$> groups.
Proof.
  unfold bests. pose proof groups_files as Hg. clearbody groups.
  induction groups as [|g gs IH]; csimpl; [done|].
  destruct (Hg g) as [Hne Hfiles]; [set_solver|].
  destruct (select_best_structure_is_Some h g.2 Hne) as [b Hb].
  rewrite Hb. csimpl. rewrite IH by set_solver. f_equal.
  rewrite Hfiles in Hb. by apply best_in_group in Hb as [_ ->].
Qed.

Lemma bests_NoDup : NoDup bests.
Proof.
  apply (NoDup_fmap_1 (fun b => accession_of index (h b))).
  rewrite bests_accessions, list_fmap_compose.
  apply NoDup_fmap_2; [by intros ? ? [= ->]|].
  apply group_by_uniprot_NoDup.
Qed.

Lemma out_bests : out = bests.
Proof.
  unfold out, group_and_select_best_structures, select_groups.
  destruct (select_fold_spec groups [] h) as (Hout & _). apply Hout.
Qed.

(** A record is returned exactly when it is the [min] of the records
    filed under some accession; line 230 then stores that accession in
    it. *)
Lemma selected_spec (b : loc) :
  b ∈ out ->
  exists u, accession_of index (h b) = Some u /\
    select_best_structure h (files u) = Some b /\
    h' b = set_uniprot_id (h b) u.
Proof.
  rewrite out_bests. unfold bests. intros Hb.
  apply list_elem_of_omap in Hb as ([u xs] & Hg & Hb). simpl in Hb.
  destruct (groups_files _ Hg) as [Hne Hxs]. simpl in Hxs. subst xs.
  exists u. split; [by apply best_in_group in Hb as [_ ?]|].
  split; [done|].
  unfold h', group_and_select_best_structures, select_groups.
  destruct (select_fold_spec groups [] h) as (_ & _ & _ & Hset).
  apply (Hset bests_NoDup (u, files u) b Hg Hb).
Qed.

Lemma selected_complete (c : loc) (u : string) :
  c ∈ high_quality_pdb_list ->
  accession_of index (h c) = Some u ->
  exists b, b ∈ out /\ select_best_structure h (files u) = Some b.
Proof.
  intros Hc Hu.
  assert (Hin : c ∈ files u) by by apply list_elem_of_filter.
  assert (Hne : files u <> []) by (intros Hnil; rewrite Hnil in Hin; set_solver).
  destruct (select_best_structure_is_Some h _ Hne) as [b Hb].
  exists b. split; [|done]. rewrite out_bests.
  apply list_elem_of_omap. exists (u, files u). split; [|done].
  by apply elem_of_group_by_uniprot.
Qed.

Lemma out_accessions_NoDup :
  NoDup ((fun b => accession_of index (h b)) <$> out).
Proof.
  rewrite out_bests, bests_accessions, list_fmap_compose.
  apply NoDup_fmap_2; [by intros ? ? [= ->]|].
  apply group_by_uniprot_NoDup.
Qed.

Lemma selector_fields (y : loc) :
  pdb_id (h' y) = pdb_id (h y) /\ method (h' y) = method (h y) /\
  resolution (h' y) = resolution (h y).
Proof.
  unfold h', group_and_select_best_structures, select_groups.
  destruct (select_fold_spec groups [] h) as (_ & Hfr & _). apply Hfr.
Qed.

End selector.

Lemma filter_split {A : Type} (P : A -> Prop) `{forall x, Decision (P x)}
    (l x1 x2 : list A) (b : A) :
  filter P l = x1 ++ b :: x2 ->
  exists l1 l2, l = l1 ++ b :: l2 /\ filter P l1 = x1 /\ filter P l2 = x2.
Proof.
  revert x1. induction l as [|a l IH]; intros x1 Hf.
  - by destruct x1.
  - rewrite list.filter_cons in Hf. destruct (decide (P a)) as [Ha|Ha].
    + destruct x1 as [|a' x1]; simpl in Hf; injection Hf as -> Hf.
      * exists [], l. by rewrite list.filter_nil.
      * destruct (IH _ Hf) as (l1 & l2 & -> & H1 & H2).
        exists (a' :: l1), l2. rewrite list.filter_cons, decide_True by done.
        by rewrite H1.
    + destruct (IH _ Hf) as (l1 & l2 & -> & H1 & H2).
      exists (a :: l1), l2. rewrite list.filter_cons, decide_False by done.
      done.
Qed.


(** Of two accessions that list the same structure, in whatever case, the
    later one owns it. *)
Example last_writer_wins :
  pdb_to_uniprot_map [("P1", ["1abc"; "2abc"]); ("P2", ["1ABC"])] !! "1ABC"
  = Some "P2".
Proof. vm_compute. reflexivity. Qed.



(** C2. Every accession under which some accepted record is filed gets a
    chosen record, and the chosen record of an accession has the least
    resolution among the records filed under it; among records of equal
    least resolution it is the one that comes first in the accepted list:
    every record of the group before it is strictly worse, every record of
    the group after it is no better.  The result is a function of the
    arguments, so it is the same on every run. *)
Theorem selector_min_first_wins (h : heap) (high_quality_pdb_list : list loc)
    (uniprot_map : list (string * list string)) :
  let index := pdb_to_uniprot_map uniprot_map in
  let result :=
    group_and_select_best_structures h high_quality_pdb_list uniprot_map in
  (forall c u,
      c ∈ high_quality_pdb_list -> accession_of index (h c) = Some u ->
      exists b, b ∈ result.1 /\ uniprot_id (result.2 b) = Some u) /\
  forall b, b ∈ result.1 ->
    exists u l1 l2,
      uniprot_id (result.2 b) = Some u /\
      accession_of index (h b) = Some u /\
      high_quality_pdb_list = l1 ++ b :: l2 /\
      (forall y, y ∈ l1 -> accession_of index (h y) = Some u ->
                 (resolution (h b) < resolution (h y))%Q) /\
      (forall y, y ∈ l2 -> accession_of index (h y) = Some u ->
                 (resolution (h b) <= resolution (h y))%Q).
Proof.
  intros index result. split.
  - intros c u Hc Hu.
    destruct (selected_complete h high_quality_pdb_list uniprot_map c u Hc Hu)
      as (b & Hb & Hbest).
    exists b. split; [done|].
    destruct (selected_spec h high_quality_pdb_list uniprot_map b Hb)
      as (u' & Hu' & _ & Hset).
    apply best_in_group in Hbest as [_ Hbu].
    unfold result. rewrite Hset. simpl. congruence.
  - intros b Hb.
    destruct (selected_spec h high_quality_pdb_list uniprot_map b Hb)
      as (u & Hu & Hbest & Hset).
    apply select_best_structure_first_min in Hbest
      as (x1 & x2 & Hsplit & Hlt & Hle).
    apply filter_split in Hsplit as (l1 & l2 & Hl & <- & <-).
    exists u, l1, l2. unfold result. rewrite Hset.
    repeat split; try done.
    + intros y Hy Hyu. rewrite Forall_forall in Hlt. apply Hlt.
      apply list_elem_of_In. by apply list_elem_of_filter.
    + intros y Hy Hyu. rewrite Forall_forall in Hle. apply Hle.
      apply list_elem_of_In. by apply list_elem_of_filter.
Qed.

(** The two records of accession P1 tie at resolution 2; the first of them,
    at address 0, is returned. *)
Lemma selector_min_first_wins_witness :
  exists u l1 l2,
    uniprot_id
      ((group_and_select_best_structures sample_heap [0; 1; 2] sample_map).2
         0) = Some u /\
    accession_of (pdb_to_uniprot_map sample_map) (sample_heap 0) = Some u /\
    [0; 1; 2] = l1 ++ 0 :: l2 /\
    (forall y, y ∈ l1 ->
       accession_of (pdb_to_uniprot_map sample_map) (sample_heap y) = Some u ->
       (resolution (sample_heap 0%nat) < resolution (sample_heap y))%Q) /\
    (forall y, y ∈ l2 ->
       accession_of (pdb_to_uniprot_map sample_map) (sample_heap y) = Some u ->
       (resolution (sample_heap 0%nat) <= resolution (sample_heap y))%Q).
Proof.
  apply (proj2 (selector_min_first_wins sample_heap [0; 1; 2] sample_map) 0).
  apply (bool_decide_unpack _). vm_compute. reflexivity.
Defined.





(** * Further properties *)

(** ** Batching *)

Lemma batches_chunks {A : Type} (batch_size : nat) (ids : list A) :
  batches batch_size ids =
  map (fun k => take batch_size (drop (k * batch_size) ids))
      (seq 0 ((length ids + batch_size - 1) / batch_size)).
Proof.
  unfold batches, py_range, slice. rewrite <- list_fmap_compose.
  apply list_fmap_ext. intros i k _. simpl.
  by replace (k * batch_size + batch_size - k * batch_size)
    with batch_size by lia.
Qed.

Lemma ceil_div_bounds (n b : nat) :
  0 < b ->
  let m := (n + b - 1) / b in
  n <= m * b /\ (0 < n -> (m - 1) * b < n /\ 0 < m).
Proof.
  intros Hb m.
  pose proof (Nat.div_mod_eq (n + b - 1) b) as Hdm.
  pose proof (Nat.mod_upper_bound (n + b - 1) b) as Hmod.
  fold m in Hdm. split; [nia|]. intros Hn.
  assert (0 < m) by (destruct m; [nia | lia]). split; [nia | done].
Qed.

(** X1. Slicing loses and repeats nothing: the batches of lines 125 and 175,
    put end to end, are the input; there are [ceil(n / batch_size)] of
    them, none is empty, none is longer than [batch_size], and all but the
    last hold exactly [batch_size] items. *)
Theorem batches_partition {A : Type} (batch_size : nat) (ids : list A) :
  0 < batch_size ->
  concat (batches batch_size ids) = ids /\
  length (batches batch_size ids)
  = (length ids + batch_size - 1) / batch_size /\
  (forall n batch,
      batches batch_size ids !! n = Some batch ->
      0 < length batch <= batch_size /\
      (S n < length (batches batch_size ids) ->
       length batch = batch_size)).
Proof.
  intros Hb. split; [by apply concat_batches|].
  rewrite batches_chunks.
  set (m := (length ids + batch_size - 1) / batch_size).
  split; [by rewrite length_map, length_seq|].
  intros n batch Hn. rewrite length_map, length_seq.
  rewrite list_lookup_fmap in Hn.
  destruct (seq 0 m !! n) as [k|] eqn:Hk; [|done].
  apply lookup_seq in Hk as [-> Hlt]. simpl in Hn. injection Hn as <-.
  rewrite length_take, length_drop.
  destruct (ceil_div_bounds (length ids) batch_size Hb) as [Hup Hlow].
  fold m in Hup, Hlow.
  assert (0 < length ids) as Hpos.
  { destruct (decide (length ids = 0)) as [Hz|]; [|lia].
    unfold m in Hlt. rewrite Hz, Nat.div_small in Hlt by lia. lia. }
  destruct (Hlow Hpos) as [Hlast _]. split; [nia|]. intros Hnext. nia.
Qed.

Lemma batches_partition_witness :
  concat (batches 2 [1; 2; 3; 4; 5]) = [1; 2; 3; 4; 5] /\
  length (batches 2 [1; 2; 3; 4; 5]) = (length [1; 2; 3; 4; 5] + 2 - 1) / 2 /\
  (forall n batch,
      batches 2 [1; 2; 3; 4; 5] !! n = Some batch ->
      0 < length batch <= 2 /\
      (S n < length (batches 2 [1; 2; 3; 4; 5]) -> length batch = 2)).
Proof. apply batches_partition. lia. Defined.

(** ** What the quality filter returns *)

Lemma is_str_eq (k : string) (v : value) : is_str k v = true -> v = VStr k.
Proof.
  destruct v; simpl; try done. intros H. apply String.eqb_eq in H. by subst.
Qed.

Lemma check_entry_accepted (entry : value) (out : list value) :
  check_entry entry [] = Ok out -> Forall accepted_record out.
Proof.
  unfold check_entry. destruct entry as [| | | | |d];
    try (intros [= <-]; constructor); try done.
  intros Hrun.
  repeat match type of Hrun with
         | (?m ≫= _) = Ok _ =>
             let E := fresh "E" in destruct m eqn:E; simpl in Hrun; [|done]
         end.
  match type of Hrun with
  | (if ?b then _ else _) = _ => destruct b
  end; [|injection Hrun as <-; constructor].
  destruct (assoc "rcsb_id" d) as [rcsb_id|]; [|done].
  simpl in Hrun. injection Hrun as <-.
  constructor; [|constructor].
  match goal with
  | H : (if ?c then _ else _) = Ok true |- _ =>
      destruct c eqn:Hm; [|done]; rename H into Hres
  end.
  rewrite orb_false_r in Hm. apply is_str_eq in Hm. subst.
  eexists _, _. split; [reflexivity|].
  match type of Hres with
  | match ?r with _ => _ end = _ => by destruct r
  end.
Qed.

Lemma check_entries_accepted (entries out : list value) :
  check_entries entries [] = Ok out -> Forall accepted_record out.
Proof.
  revert out. induction entries as [|entry rest IH]; intros out Hrun.
  - injection Hrun as <-. constructor.
  - simpl in Hrun.
    destruct (check_entry entry []) as [o1|] eqn:H1; [|done].
    simpl in Hrun. rewrite check_entries_app in Hrun.
    destruct (check_entries rest []) as [o2|] eqn:H2; [|done].
    simpl in Hrun. injection Hrun as <-.
    apply Forall_app. split; [by eapply check_entry_accepted | by apply IH].
Qed.

Lemma handle_results_accepted (results : value) (out : list value) :
  handle_results results [] = Ok out -> Forall accepted_record out.
Proof.
  unfold handle_results. intros Hrun.
  repeat match type of Hrun with
         | (?m ≫= _) = Ok _ =>
             let E := fresh "E" in destruct m eqn:E; simpl in Hrun; [|done]
         | (if ?b then _ else _) = Ok _ => destruct b
         | Ok _ = Ok _ => injection Hrun as <-
         end; try constructor.
  by eapply check_entries_accepted.
Qed.

Lemma query_batches_accepted (post : nat -> list string -> reply)
    (bs : list (list string)) (n : nat) (acc out : list value) :
  query_batches post n bs acc = Ok out ->
  Forall accepted_record acc -> Forall accepted_record out.
Proof.
  revert n acc. induction bs as [|batch bs IH]; intros n acc; simpl.
  - by intros [= <-].
  - destruct (query_batch (post n batch) acc) as [acc'|] eqn:Hq; [|done].
    simpl. intros Hrun Hacc. apply (IH _ _ Hrun).
    destruct (post n batch) as [| |results]; simpl in Hq;
      try (by injection Hq as <-).
    rewrite handle_results_app in Hq.
    destruct (handle_results results []) as [o|] eqn:Ho; [|done].
    simpl in Hq. injection Hq as <-. apply Forall_app. split; [done|].
    by eapply handle_results_accepted.
Qed.

(** X2. Whatever the service answers, every record that
    [filter_pdbs_by_quality] returns has exactly the keys [pdb_id],
    [method] and [resolution], its method is "X-RAY DIFFRACTION", and its
    resolution is present and at most [MAX_RESOLUTION]. *)
Theorem filter_returns_accepted_records (post : nat -> list string -> reply)
    (pdb_ids : list string) (high_quality_pdbs : list value) :
  filter_pdbs_by_quality post pdb_ids = Ok high_quality_pdbs ->
  Forall accepted_record high_quality_pdbs.
Proof.
  intros Hrun. by apply (query_batches_accepted _ _ _ _ _ Hrun).
Qed.

Lemma filter_returns_accepted_records_witness :
  Forall accepted_record [sample_record "1ABC" 2%Q; sample_record "3ABC" (5 # 2)%Q].
Proof.
  apply (filter_returns_accepted_records ordered_post ["1abc"; "2abc"; "3abc"]).
  reflexivity.
Defined.

(** ** Exceptions that are not caught *)

Lemma query_batches_app (post : nat -> list string -> reply)
    (bs1 bs2 : list (list string)) (n : nat) (acc : list value) :
  query_batches post n (bs1 ++ bs2) acc =
  query_batches post n bs1 acc ≫= query_batches post (n + length bs1) bs2.
Proof.
  revert n acc. induction bs1 as [|batch bs1 IH]; intros n acc; simpl.
  - by replace (n + 0) with n by lia.
  - rewrite bind_assoc. apply bind_ext. intros acc'.
    rewrite IH. by replace (S n + length bs1) with (n + S (length bs1)) by lia.
Qed.

(** X3. No partial result: when the body of some batch makes lines 192 to
    202 raise, [filter_pdbs_by_quality] raises that exception, and the
    records of the batches before it, however many succeeded, are not
    returned. *)
Theorem filter_exception_discards_run (post : nat -> list string -> reply)
    (pdb_ids : list string) (k : nat) (batch : list string) (results : value)
    (e : exn) (outs : list (list value)) :
  batches 500 pdb_ids !! k = Some batch ->
  length outs = k ->
  (forall n b out,
      batches 500 pdb_ids !! n = Some b -> outs !! n = Some out ->
      batch_outcome (post n b) out) ->
  post k batch = Json results ->
  handle_results results [] = Raise e ->
  filter_pdbs_by_quality post pdb_ids = Raise e.
Proof.
  intros Hk Hlen Hbefore Hreply Hraise. unfold filter_pdbs_by_quality.
  rewrite <- (take_drop_middle _ _ _ Hk), query_batches_app.
  rewrite (query_batches_outcomes post _ outs 0 []).
  - simpl. rewrite length_take_le
      by (apply lookup_lt_Some in Hk; lia).
    rewrite Hreply. simpl. by rewrite handle_results_app, Hraise.
  - rewrite length_take_le; [done|]. apply lookup_lt_Some in Hk. lia.
  - intros i b out Hb Ho. simpl. apply Hbefore; [|done].
    apply lookup_take_Some in Hb. by destruct Hb.
Qed.

(** Here the first batch succeeds with 500 records and the second names an
    entry whose [rcsb_entry_info] is null. *)
Lemma filter_exception_discards_run_witness :
  filter_pdbs_by_quality late_null_post (replicate 501 "1abc")
  = Raise AttributeError.
Proof.
  apply (filter_exception_discards_run late_null_post _ 1 ["1abc"]
           (sample_body [null_info_entry]) AttributeError
           [map (fun id => sample_record (upper id) 2%Q)
                (replicate 500 "1abc")]).
  - vm_compute. reflexivity.
  - reflexivity.
  - intros n b out Hb Ho. destruct n as [|n]; [|done].
    vm_compute in Hb, Ho. simplify_eq.
    eapply batch_succeeded; [reflexivity | |]; vm_compute; reflexivity.
  - reflexivity.
  - reflexivity.
Defined.

(** ** The mapping of the cross-reference table *)

Lemma str_lt_OT (a b : string) :
  str_lt a b <-> OrderedTypeEx.String_as_OT.lt a b.
Proof.
  unfold str_lt, String.ltb.
  rewrite <- OrderedTypeEx.String_as_OT.cmp_lt.
  unfold OrderedTypeEx.String_as_OT.cmp. by destruct (String.compare a b).
Qed.

Lemma str_lt_trans (a b c : string) : str_lt a b -> str_lt b c -> str_lt a c.
Proof.
  rewrite !str_lt_OT. apply OrderedTypeEx.String_as_OT.lt_trans.
Qed.

Lemma str_lt_irrefl (a : string) : ~ str_lt a a.
Proof.
  rewrite str_lt_OT. intros H.
  by apply OrderedTypeEx.String_as_OT.lt_not_eq in H.
Qed.

Lemma str_lt_total (a b : string) : a = b \/ str_lt a b \/ str_lt b a.
Proof.
  unfold str_lt, String.ltb. rewrite (String.compare_antisym b a).
  destruct (String.compare a b) eqn:Hc; simpl; auto.
  left. by apply String.compare_eq_iff.
Qed.

Lemma insert_key_sorted (k : string) (keys : list string) :
  Sorted.StronglySorted str_lt keys -> Sorted.StronglySorted str_lt (insert_key k keys).
Proof.
  induction keys as [|k' keys IH]; intros Hs; simpl.
  - repeat constructor.
  - apply Sorted.StronglySorted_inv in Hs as [Hs Hall].
    destruct (String.eqb_spec k k') as [->|Hne]; [by constructor|].
    destruct (String.ltb k k') eqn:Hlt.
    + constructor; [by constructor|]. constructor; [done|].
      eapply Forall_impl; [|exact Hall]. intros x Hx.
      by apply str_lt_trans with k'.
    + constructor; [by apply IH|].
      apply Forall_forall. intros x Hx. apply list_elem_of_In in Hx.
      apply elem_of_insert_key in Hx as [->|Hx].
      * destruct (str_lt_total k k') as [?|[Hk|Hk]]; [done| |done].
        unfold str_lt in Hk. congruence.
      * rewrite Forall_forall in Hall. apply Hall. by apply list_elem_of_In.
Qed.

Lemma sorted_keys_sorted (df : list (string * string)) :
  Sorted.StronglySorted str_lt (sorted_keys df).
Proof.
  induction df as [|r df IH]; simpl; [constructor|].
  by apply insert_key_sorted.
Qed.

Lemma sorted_NoDup (keys : list string) :
  Sorted.StronglySorted str_lt keys -> NoDup keys.
Proof.
  induction 1 as [|k keys Hs IH Hall]; [apply NoDup_nil_2|].
  apply NoDup_cons_2; [|done]. intros Hin.
  rewrite Forall_forall in Hall. apply list_elem_of_In, Hall in Hin.
  by apply str_lt_irrefl in Hin.
Qed.

Lemma drop_duplicates_NoDup (seen df : list (string * string)) :
  NoDup (drop_duplicates seen df).
Proof.
  revert seen. induction df as [|r df IH]; intros seen; simpl.
  - apply NoDup_nil_2.
  - case_bool_decide; [done|]. apply NoDup_cons_2; [|done].
    rewrite elem_of_drop_duplicates. set_solver.
Qed.

Lemma drop_duplicates_seen_ext (seen1 seen2 df : list (string * string)) :
  (forall r, r ∈ df -> r ∈ seen1 <-> r ∈ seen2) ->
  drop_duplicates seen1 df = drop_duplicates seen2 df.
Proof.
  revert seen1 seen2. induction df as [|r df IH]; intros seen1 seen2 H;
    simpl; [done|].
  rewrite (bool_decide_ext (r ∈ seen1) (r ∈ seen2)) by (apply H; set_solver).
  case_bool_decide.
  - apply IH. intros x Hx. apply H. set_solver.
  - f_equal. apply IH. intros x Hx. rewrite !elem_of_cons.
    rewrite (H x) by set_solver. done.
Qed.

Lemma filter_drop_duplicates (P : string * string -> Prop)
    `{forall r, Decision (P r)} (seen df : list (string * string)) :
  filter P (drop_duplicates seen df) = drop_duplicates seen (filter P df).
Proof.
  revert seen. induction df as [|r df IH]; intros seen; simpl; [done|].
  rewrite (list.filter_cons P r df). case_bool_decide as Hseen.
  - rewrite IH. destruct (decide (P r)); [|done].
    simpl. by rewrite bool_decide_eq_true_2.
  - rewrite list.filter_cons. destruct (decide (P r)) as [HP|HP].
    + simpl. rewrite bool_decide_eq_false_2 by done. by rewrite IH.
    + rewrite IH. apply drop_duplicates_seen_ext. intros x Hx.
      apply list_elem_of_filter in Hx as [HPx _].
      rewrite elem_of_cons. naive_solver.
Qed.

Lemma mapping_lookup (table : list row) (targets : list string)
    (A : string) (pdbs : list string) :
  dict_get A (groupby (drop_duplicates [] (isin_rows targets (dropna table))))
    = Some pdbs ->
  A ∈ targets /\ forall S, S ∈ pdbs <-> (Some S, Some A) ∈ table.
Proof.
  set (df := drop_duplicates [] (isin_rows targets (dropna table))).
  intros HA. pose proof (groupby_lookup_Some _ _ _ HA) as [Hne Hmem].
  assert (HT : A ∈ targets).
  { destruct pdbs as [|S pdbs]; [done|].
    assert (HS : (S, A) ∈ df) by (apply Hmem; set_solver).
    by apply elem_of_target_rows in HS as [_ ?]. }
  split; [done|].
  intros S. rewrite Hmem. unfold df. rewrite elem_of_target_rows.
  naive_solver.
Qed.

(** X4. The mapping has its keys in ascending order and none twice; every
    key is a target accession; the list under a key has no structure twice
    and holds exactly the structures of the complete rows of that
    accession. *)
Theorem sifts_mapping_exact (table : list row) (targets : list string) :
  exists uniprot_to_pdb_map,
    get_sifts_mapping (Some table) targets = Some uniprot_to_pdb_map /\
    Sorted.StronglySorted (fun a b => String.ltb a b = true) uniprot_to_pdb_map.*1 /\
    NoDup uniprot_to_pdb_map.*1 /\
    forall A pdbs,
      dict_get A uniprot_to_pdb_map = Some pdbs ->
      A ∈ targets /\ NoDup pdbs /\
      forall S, S ∈ pdbs <-> (Some S, Some A) ∈ table.
Proof.
  simpl. set (df := drop_duplicates [] (isin_rows targets (dropna table))).
  exists (groupby df). rewrite groupby_keys.
  split; [done|]. split; [apply sorted_keys_sorted|].
  split; [apply sorted_NoDup, sorted_keys_sorted|].
  intros A pdbs HA.
  destruct (mapping_lookup _ _ _ _ HA) as [HT Hmem].
  split; [done|]. split; [|done].
  - rewrite dict_get_groupby in HA. case_bool_decide; [|done].
    injection HA as <-.
    apply NoDup_fmap_2_strong.
    + intros [s1 a1] [s2 a2] H1 H2 Heq.
      apply list_elem_of_filter in H1 as [E1 _].
      apply list_elem_of_filter in H2 as [E2 _]. simpl in *. congruence.
    + apply list.NoDup_filter, drop_duplicates_NoDup.
Qed.

(** X5. Grouping and the target filter commute: the list under an accession
    is what its own complete rows give, in the order of the table, a
    repeated row counted at its first occurrence only. *)
Theorem sifts_mapping_row_order (table : list row) (targets : list string)
    (A : string) (pdbs : list string) (uniprot_to_pdb_map : list (string * list string)) :
  get_sifts_mapping (Some table) targets = Some uniprot_to_pdb_map ->
  dict_get A uniprot_to_pdb_map = Some pdbs ->
  pdbs = (drop_duplicates [] (filter (fun r => r.2 = A) (dropna table))).*1.
Proof.
  simpl. intros [= <-] HA.
  assert (HT : A ∈ targets).
  { by apply mapping_lookup in HA as [? _]. }
  rewrite dict_get_groupby in HA. case_bool_decide; [|done].
  injection HA as <-. f_equal.
  rewrite filter_drop_duplicates. f_equal. unfold isin_rows.
  rewrite list_filter_filter. apply list_filter_iff.
  intros [s a]. simpl. naive_solver.
Qed.

Lemma sifts_mapping_row_order_witness :
  ["2xyz"; "1abc"] =
  (drop_duplicates []
     (filter (fun r => r.2 = "P12345")
        (dropna [(Some "2xyz", Some "P12345"); (Some "1abc", Some "Q99999");
                 (Some "1abc", Some "P12345");
                 (Some "2xyz", Some "P12345")]))).*1.
Proof.
  eapply (sifts_mapping_row_order _ ["Q99999"; "P12345"] "P12345");
    reflexivity.
Defined.

(** ** More on the selector *)

Lemma fold_index_Some_or (pairs : list (string * string))
    (index : gmap string string) (K u : string) :
  fold_left index_insert pairs index !! K = Some u ->
  (exists pdb, (pdb, u) ∈ pairs /\ upper pdb = K) \/
  (index !! K = Some u /\ Forall (fun p => upper p.1 <> K) pairs).
Proof.
  revert index. induction pairs as [|[pdb u'] pairs IH]; intros index; simpl.
  - intros H. right. by split.
  - intros H. apply IH in H as [(pdb' & Hin & HK)|[H Hall]].
    + left. exists pdb'. split; [set_solver | done].
    + unfold index_insert in H. simpl in H.
      destruct (decide (upper pdb = K)) as [<-|Hne].
      * rewrite lookup_insert_eq in H. injection H as ->.
        left. exists pdb. split; [set_solver | done].
      * rewrite lookup_insert_ne in H by done. right.
        split; [done|]. by constructor.
Qed.

Lemma index_pairs_app (m1 m2 : list (string * list string)) :
  index_pairs (m1 ++ m2) = index_pairs m1 ++ index_pairs m2.
Proof. unfold index_pairs. apply bind_app. Qed.

Lemma index_pairs_key (m : list (string * list string)) (pdb u : string) :
  (pdb, u) ∈ index_pairs m -> u ∈ m.*1.
Proof.
  intros H. apply elem_of_index_pairs in H as (pdbs & Hitem & _).
  apply list_elem_of_fmap. by exists (u, pdbs).
Qed.

(** X6. An accession loses its structures to later keys: when every
    structure of accession A is listed again, in whatever case, under a
    key that comes after A in the mapping, no record is returned for A,
    however good its structures are. *)
Theorem selector_shadowed_accession (h : heap)
    (high_quality_pdb_list : list loc)
    (before after : list (string * list string)) (A : string)
    (pdbs : list string) :
  A ∉ before.*1 ->
  A ∉ after.*1 ->
  (forall pdb, pdb ∈ pdbs ->
     exists B pdbs' pdb',
       (B, pdbs') ∈ after /\ pdb' ∈ pdbs' /\ upper pdb' = upper pdb) ->
  let result :=
    group_and_select_best_structures h high_quality_pdb_list
      (before ++ (A, pdbs) :: after) in
  forall b, b ∈ result.1 -> uniprot_id (result.2 b) <> Some A.
Proof.
  intros Hbefore Hafter Hshadow result b Hb HA.
  destruct (selected_spec _ _ _ b Hb) as (u & Hu & _ & Hset).
  fold result in Hset. rewrite Hset in HA. simpl in HA. injection HA as ->.
  unfold accession_of in Hu.
  destruct (pdb_to_uniprot_map _ !! upper (pdb_id (h b))) as [u|] eqn:Hidx;
    [|done].
  destruct (String.eqb u ""); [done|]. injection Hu as ->.
  rewrite pdb_to_uniprot_map_pairs in Hidx.
  change ((A, pdbs) :: after) with ([(A, pdbs)] ++ after) in Hidx.
  rewrite !index_pairs_app, !fold_left_app in Hidx.
  apply fold_index_Some_or in Hidx as [(pdb & Hin & _)|[Hidx Hnone]].
  { by apply index_pairs_key in Hin. }
  apply fold_index_Some_or in Hidx as [(pdb & Hin & HK)|[Hidx _]].
  - apply elem_of_index_pairs in Hin as (pdbs0 & Hitem & Hpdb).
    apply list_elem_of_singleton in Hitem. injection Hitem as <-.
    destruct (Hshadow pdb Hpdb) as (B & pdbs' & pdb' & HB & Hpdb' & Hup).
    assert (Hpair : (pdb', B) ∈ index_pairs after)
      by (apply elem_of_index_pairs; by exists pdbs').
    rewrite Forall_forall in Hnone.
    apply list_elem_of_In, Hnone in Hpair. simpl in Hpair. congruence.
  - apply fold_index_Some in Hidx as [Hidx|(pdb & Hin & _)].
    + by rewrite lookup_empty in Hidx.
    + by apply index_pairs_key in Hin.
Qed.

(** Both accessions list structure 1ABC; P2 comes later and owns it, so
    P1, which has nothing else, gets no record. *)
Lemma selector_shadowed_accession_witness :
  Forall
    (fun b =>
       uniprot_id
         ((group_and_select_best_structures sample_heap [0; 1; 2]
             ([] ++ ("P1", ["1abc"]) :: [("P2", ["1ABC"; "3abc"])])).2 b)
       <> Some "P1")
    (group_and_select_best_structures sample_heap [0; 1; 2]
       ([] ++ ("P1", ["1abc"]) :: [("P2", ["1ABC"; "3abc"])])).1.
Proof.
  apply Forall_forall. intros b Hb. apply list_elem_of_In in Hb. revert b Hb.
  apply (selector_shadowed_accession sample_heap [0; 1; 2] []
           [("P2", ["1ABC"; "3abc"])] "P1" ["1abc"]).
  - apply (bool_decide_unpack _). vm_compute. reflexivity.
  - apply (bool_decide_unpack _). vm_compute. reflexivity.
  - intros pdb Hpdb. apply list_elem_of_singleton in Hpdb as ->.
    exists "P2", ["1ABC"; "3abc"], "1ABC".
    repeat split; try (apply (bool_decide_unpack _); vm_compute; reflexivity).
Defined.

Lemma dict_append_keys_add (u : string) (x : loc)
    (d : list (string * list loc)) :
  (dict_append u x d).*1 = add_codes [u] d.*1.
Proof. by rewrite dict_append_keys. Qed.

Lemma group_by_uniprot_keys (h : heap) (index : gmap string string)
    (l : list loc) :
  (group_by_uniprot h index l).*1 =
  add_codes (omap (fun c => accession_of index (h c)) l) [].
Proof.
  induction l as [|x l IH] using rev_ind; [done|].
  rewrite group_by_uniprot_snoc, omap_app, add_codes_app, <- IH. csimpl.
  destruct (accession_of index (h x)) as [u|]; csimpl; [|done].
  apply dict_append_keys_add.
Qed.

(** X7. The returned records come in the order in which their accessions
    first occur among the accepted records: the accessions of the output,
    read in order, are the accessions of the accepted list with every
    repetition after the first removed. *)
Theorem selector_output_order (h : heap) (high_quality_pdb_list : list loc)
    (uniprot_map : list (string * list string)) :
  let index := pdb_to_uniprot_map uniprot_map in
  let result :=
    group_and_select_best_structures h high_quality_pdb_list uniprot_map in
  (fun b => uniprot_id (result.2 b)) <$> result.1 =
  Some <$> add_codes
             (omap (fun c => accession_of index (h c)) high_quality_pdb_list)
             [].
Proof.
  cbv zeta.
  rewrite <- group_by_uniprot_keys, <- list_fmap_compose.
  rewrite <- (bests_accessions h high_quality_pdb_list uniprot_map).
  rewrite <- out_bests.
  apply list_fmap_ext. intros i b Hb. apply list_elem_of_lookup_2 in Hb.
  destruct (selected_spec _ _ _ b Hb) as (u & Hu & _ & Hset).
  by rewrite Hset, Hu.
Qed.

Lemma dict_append_fresh (u : string) (x : loc)
    (d : list (string * list loc)) :
  u ∉ d.*1 -> dict_append u x d = d ++ [(u, [x])].
Proof.
  induction d as [|[k xs] d IH]; simpl; intros Hu; [done|].
  rewrite eqb_decide, bool_decide_eq_false_2 by set_solver.
  f_equal. apply IH. set_solver.
Qed.

Lemma group_by_uniprot_singletons (h : heap) (index : gmap string string)
    (l : list loc) :
  NoDup (omap (fun c => accession_of index (h c)) l) ->
  group_by_uniprot h index l =
  omap (fun c => (fun u => (u, [c])) <$> accession_of index (h c)) l.
Proof.
  induction l as [|x l IH] using rev_ind; intros Hnd; [done|].
  rewrite omap_app in Hnd. apply list.NoDup_app in Hnd as (Hnd & Hfresh & _).
  rewrite group_by_uniprot_snoc, omap_app. csimpl.
  destruct (accession_of index (h x)) as [u|] eqn:Hu; csimpl.
  - rewrite dict_append_fresh; [by rewrite IH|].
    rewrite group_by_uniprot_keys, <- (app_nil_l (omap _ l)) at 1.
    intros Hin. apply add_codes_spec in Hin; [|apply NoDup_nil_2].
    destruct Hin as [Hin|Hin]; [set_solver|].
    apply (Hfresh u Hin). csimpl. rewrite Hu. csimpl. set_solver.
  - rewrite app_nil_r. by apply IH.
Qed.

(** X8. Selecting again changes nothing: run on its own output and on the
    store it left, [group_and_select_best_structures] returns the same
    list and leaves every record as it is. *)
Theorem selector_idempotent (h : heap) (high_quality_pdb_list : list loc)
    (uniprot_map : list (string * list string)) :
  let first :=
    group_and_select_best_structures h high_quality_pdb_list uniprot_map in
  let second :=
    group_and_select_best_structures first.2 first.1 uniprot_map in
  second.1 = first.1 /\ forall y, second.2 y = first.2 y.
Proof.
  intros first second.
  set (index := pdb_to_uniprot_map uniprot_map).
  assert (Hsel : forall b, b ∈ first.1 ->
            exists u, accession_of index (first.2 b) = Some u /\
                      first.2 b = set_uniprot_id (h b) u).
  { intros b Hb. destruct (selected_spec _ _ _ b Hb) as (u & Hu & _ & Hset).
    exists u. split; [|done]. unfold accession_of in *.
    destruct (selector_fields h high_quality_pdb_list uniprot_map b)
      as [Hid _].
    fold first in Hid. by rewrite Hid. }
  assert (Hnd1 : NoDup first.1).
  { unfold first. rewrite out_bests. apply bests_NoDup. }
  assert (Hnd : NoDup (omap (fun c => accession_of index (first.2 c))
                            first.1)).
  { pose proof (out_accessions_NoDup h high_quality_pdb_list uniprot_map)
      as Hacc. fold first index in Hacc.
    apply (NoDup_fmap_1 Some).
    replace (Some <$> omap (fun c => accession_of index (first.2 c)) first.1)
      with ((fun b => accession_of index (h b)) <$> first.1); [done|].
    clear Hacc Hnd1. induction first.1 as [|c l IH]; [done|]. csimpl.
    destruct (Hsel c) as (u & Hu & Hset); [set_solver|].
    rewrite Hu. csimpl. rewrite <- IH by set_solver. f_equal.
    unfold accession_of in *.
    destruct (selector_fields h high_quality_pdb_list uniprot_map c)
      as [Hid _].
    fold first in Hid. by rewrite <- Hid. }
  unfold second, group_and_select_best_structures, select_groups.
  fold index. rewrite (group_by_uniprot_singletons _ _ _ Hnd).
  set (groups := omap (fun c => (fun u => (u, [c])) <$>
                                accession_of index (first.2 c)) first.1).
  destruct (select_fold_spec groups [] first.2) as (Hout & _ & Hother & Hset).
  assert (Hbests :
    omap (fun g => select_best_structure first.2 g.2) groups = first.1).
  { unfold groups. clear -Hsel. induction first.1 as [|c l IH]; [done|].
    csimpl. destruct (Hsel c) as (u & Hu & _); [set_solver|].
    rewrite Hu. csimpl. rewrite IH; [done|]. intros b Hb. apply Hsel.
    set_solver. }
  rewrite Hbests in Hout, Hother, Hset. split; [done|].
  intros y. destruct (decide (y ∈ first.1)) as [Hy|Hy]; [|by apply Hother].
  destruct (Hsel y Hy) as (u & Hu & Hsety).
  assert (Hg : (u, [y]) ∈ groups).
  { apply list_elem_of_omap. exists y. split; [done|]. by rewrite Hu. }
  rewrite (Hset Hnd1 _ y Hg eq_refl). simpl. by rewrite Hsety.
Qed.

(** ** The target normalizer *)

Lemma append_nil_l (s : string) : "" +:+ s = s.
Proof. done. Qed.

Lemma append_cons (a : ascii) (s t : string) :
  String a s +:+ t = String a (s +:+ t).
Proof. done. Qed.

Lemma append_nil_r (s : string) : s +:+ "" = s.
Proof.
  induction s as [|a s IH]; [done|]. by rewrite append_cons, IH.
Qed.

Lemma append_assoc (s1 s2 s3 : string) :
  (s1 +:+ s2) +:+ s3 = s1 +:+ (s2 +:+ s3).
Proof.
  induction s1 as [|a s1 IH]; [done|]. by rewrite !append_cons, IH.
Qed.

Lemma has_char_cons (c a : ascii) (s : string) :
  has_char c (String a s) <-> c = a \/ has_char c s.
Proof. unfold has_char. simpl. set_solver. Qed.

Lemma has_char_nil (c : ascii) : ~ has_char c "".
Proof. unfold has_char. simpl. set_solver. Qed.

Lemma has_char_app (c : ascii) (s1 s2 : string) :
  has_char c (s1 +:+ s2) <-> has_char c s1 \/ has_char c s2.
Proof.
  induction s1 as [|a s1 IH].
  - rewrite append_nil_l. pose proof (has_char_nil c). tauto.
  - rewrite append_cons, !has_char_cons, IH. tauto.
Qed.

Lemma ascii_eqb_decide (a b : ascii) : Ascii.eqb a b = bool_decide (a = b).
Proof.
  destruct (Ascii.eqb_spec a b).
  - by rewrite bool_decide_eq_true_2.
  - by rewrite bool_decide_eq_false_2.
Qed.

(** *** Stripping *)

Lemma lstrip_head (s : string) :
  lstrip s = "" \/ exists c r, lstrip s = String c r /\ is_space c = false.
Proof.
  induction s as [|c s IH]; simpl; [by left|].
  destruct (is_space c) eqn:Hc; [done|]. right. by exists c, s.
Qed.

Lemma rstrip_nonspace (c : ascii) (r : string) :
  is_space c = false -> rstrip (String c r) = String c (rstrip r).
Proof. intros Hc. simpl. rewrite Hc. by destruct (rstrip r). Qed.

Lemma rstrip_idem (s : string) : rstrip (rstrip s) = rstrip s.
Proof.
  induction s as [|c s IH]; simpl; [done|].
  destruct (rstrip s) as [|k kept] eqn:Hk.
  - destruct (is_space c) eqn:Hc; simpl; [done|]. by rewrite Hc.
  - simpl in *. rewrite IH. done.
Qed.

Lemma strip_idem (s : string) : strip (strip s) = strip s.
Proof.
  unfold strip. destruct (lstrip_head s) as [->|(c & r & -> & Hc)]; [done|].
  rewrite rstrip_nonspace by done.
  assert (lstrip (String c (rstrip r)) = String c (rstrip r)) as ->
    by (simpl; by rewrite Hc).
  by rewrite rstrip_nonspace, rstrip_idem.
Qed.

Lemma strip_fixed_head (s : string) :
  strip s = s -> s <> "" -> exists c r, s = String c r /\ is_space c = false.
Proof.
  unfold strip. intros Hs Hne.
  destruct (lstrip_head s) as [H|(c & r & H & Hc)]; rewrite H in Hs.
  - by subst.
  - rewrite rstrip_nonspace in Hs by done. by exists c, (rstrip r).
Qed.

Lemma has_char_lstrip (c : ascii) (s : string) :
  has_char c (lstrip s) -> has_char c s.
Proof.
  induction s as [|a s IH]; simpl; [done|].
  destruct (is_space a); [|done]. rewrite has_char_cons. auto.
Qed.

Lemma has_char_rstrip (c : ascii) (s : string) :
  has_char c (rstrip s) -> has_char c s.
Proof.
  induction s as [|a s IH]; [done|]. simpl.
  destruct (rstrip s) as [|k kept] eqn:Hk.
  - destruct (is_space a); intros H; [by apply has_char_nil in H|].
    apply has_char_cons in H as [->|H]; [|by apply has_char_nil in H].
    apply has_char_cons. by left.
  - intros H. apply has_char_cons in H as [->|H]; apply has_char_cons;
      [by left | right; by apply IH].
Qed.

Lemma has_char_strip (c : ascii) (s : string) :
  has_char c (strip s) -> has_char c s.
Proof. intros H. by apply has_char_lstrip, has_char_rstrip. Qed.

(** *** Splitting and matching *)

Lemma split_semicolon_chars (c : ascii) (piece s : string) :
  (~ has_char c piece) -> (c = semicolon \/ ~ has_char c s) ->
  Forall (fun p => ~ has_char c p) (split_semicolon piece s).
Proof.
  revert piece. induction s as [|a s IH]; intros piece Hp Hs; simpl.
  - by constructor.
  - rewrite ascii_eqb_decide. case_bool_decide as Ha; subst.
    + constructor; [done|]. apply IH; [apply has_char_nil|].
      destruct Hs as [->|Hs]; [by left|]. right.
      rewrite has_char_cons in Hs. tauto.
    + apply IH.
      * rewrite has_char_app, has_char_cons.
        pose proof (has_char_nil c). destruct Hs as [->|Hs]; [naive_solver|].
        rewrite has_char_cons in Hs. naive_solver.
      * destruct Hs as [->|Hs]; [by left|]. right.
        rewrite has_char_cons in Hs. tauto.
Qed.

Lemma findall_no_newline (st : scan) (content : string) :
  (forall line, st = Group line -> ~ has_char newline line) ->
  Forall (fun line => ~ has_char newline line) (findall_uniproid st content).
Proof.
  revert st. induction content as [|c rest IH]; intros st Hst; simpl.
  - destruct st; repeat constructor; [apply has_char_nil | by apply Hst].
  - destruct st as [[|m marker]| | |line];
      repeat match goal with
             | |- context [if ?b then _ else _] => destruct b eqn:?
             end;
      try constructor; try apply IH; try done; try (by apply Hst).
    + intros l [= <-]. rewrite has_char_cons.
      intros [Hc|Hc]; [|by apply has_char_nil in Hc].
      subst. by vm_compute in Heqb.
    + intros l [= <-]. rewrite has_char_app, has_char_cons.
      intros [Hc|[Hc|Hc]]; [by apply (Hst line) | | by apply has_char_nil in Hc].
      subst. by rewrite Ascii.eqb_refl in Heqb.
Qed.

(** *** Names *)

Lemma add_name_spec (names : list string) (pid : string) :
  (~ has_char semicolon pid) -> (~ has_char newline pid) ->
  NoDup names -> Forall clean_name names ->
  NoDup (add_name names pid) /\ Forall clean_name (add_name names pid).
Proof.
  intros Hsemi Hnl Hnd Hclean. unfold add_name.
  destruct (String.eqb_spec (strip pid) ""); simpl; [done|].
  destruct (String.eqb_spec (lower (strip pid)) "uniprot id"); simpl; [done|].
  destruct (add_codes_spec [strip pid] names Hnd) as [Hnd' Hmem].
  split; [done|]. apply Forall_forall. intros x Hx.
  apply list_elem_of_In, Hmem in Hx as [Hx|Hx].
  - rewrite Forall_forall in Hclean. by apply Hclean, list_elem_of_In.
  - apply list_elem_of_singleton in Hx as ->.
    repeat split; try done; [apply strip_idem | |];
      intros H; by apply has_char_strip in H.
Qed.

Lemma fold_add_name_spec (pieces names : list string) :
  Forall (fun p => ~ has_char semicolon p) pieces ->
  Forall (fun p => ~ has_char newline p) pieces ->
  NoDup names -> Forall clean_name names ->
  NoDup (fold_left add_name pieces names) /\
  Forall clean_name (fold_left add_name pieces names).
Proof.
  revert names. induction pieces as [|p pieces IH]; intros names Hs Hn Hnd Hc;
    simpl; [done|].
  apply Forall_cons_iff in Hs as [Hs1 Hs]. apply Forall_cons_iff in Hn as [Hn1 Hn].
  destruct (add_name_spec names p Hs1 Hn1 Hnd Hc) as [Hnd' Hc'].
  by apply IH.
Qed.

Lemma parse_targets_clean (content : string) :
  NoDup (parse_targets content) /\ Forall clean_name (parse_targets content).
Proof.
  unfold parse_targets.
  pose proof (findall_no_newline (Marker "UNIPROID") content
                ltac:(by intros ? [=])) as Hlines.
  revert Hlines. generalize (findall_uniproid (Marker "UNIPROID") content).
  intros lines. assert (NoDup (@nil string) /\ Forall clean_name []) as Hacc
    by (split; [apply NoDup_nil_2 | constructor]).
  revert Hacc. generalize (@nil string) as names.
  induction lines as [|line lines IH]; intros names [Hnd Hc] Hlines; simpl;
    [done|].
  apply Forall_cons_iff in Hlines as [Hline Hlines].
  apply IH; [|done]. apply fold_add_name_spec; try done.
  - apply split_semicolon_chars; [apply has_char_nil | by left].
  - apply split_semicolon_chars; [apply has_char_nil | by right].
Qed.

(** X9. The names [get_ttd_targets] returns: at least one, none twice, and
    each of them non-empty, without whitespace at either end, without a
    semicolon or a newline inside, and not the header "uniprot id" in
    whatever letter case. *)
Theorem targets_are_clean (download : option string) (names : list string) :
  get_ttd_targets download = Some names ->
  names <> [] /\ NoDup names /\ Forall clean_name names.
Proof.
  destruct download as [content|]; simpl; [|done].
  destruct (parse_targets_clean content) as [Hnd Hc].
  destruct (parse_targets content) as [|n ns]; [done|].
  intros [= <-]. by repeat split.
Qed.

Lemma targets_are_clean_witness :
  ["A"; "B"] <> [] /\ NoDup ["A"; "B"] /\ Forall clean_name ["A"; "B"].
Proof.
  apply (targets_are_clean (Some "UNIPROID  A;B;A")). reflexivity.
Defined.

(** *** Reading back a rendered file *)

Lemma findall_skip_line (text rest : string) :
  ~ has_char newline text ->
  findall_uniproid Skip (text +:+ String newline rest) =
  findall_uniproid (Marker "UNIPROID") rest.
Proof.
  induction text as [|c text IH]; intros Hnl.
  - done.
  - rewrite append_cons. cbn [findall_uniproid]. rewrite has_char_cons in Hnl.
    rewrite ascii_eqb_decide, bool_decide_eq_false_2 by naive_solver.
    apply IH. tauto.
Qed.

Lemma findall_other_line (marker text rest : string) :
  ~ has_char newline marker ->
  ~ has_char newline text ->
  String.prefix marker text = false ->
  findall_uniproid (Marker marker) (text +:+ String newline rest) =
  findall_uniproid (Marker "UNIPROID") rest.
Proof.
  revert marker. induction text as [|c text IH]; intros marker Hm Hnl Hpre.
  - destruct marker as [|m marker]; [done|]. rewrite append_nil_l. cbn [findall_uniproid].
    rewrite has_char_cons in Hm.
    rewrite ascii_eqb_decide, bool_decide_eq_false_2 by naive_solver.
    done.
  - destruct marker as [|m marker]; [done|]. rewrite append_cons. cbn [findall_uniproid].
    rewrite has_char_cons in Hm, Hnl. simpl in Hpre.
    rewrite ascii_eqb_decide.
    destruct (ascii_dec m c) as [->|Hne].
    + rewrite bool_decide_eq_true_2 by done. apply IH; tauto.
    + rewrite bool_decide_eq_false_2 by done.
      rewrite ascii_eqb_decide, bool_decide_eq_false_2 by naive_solver.
      apply findall_skip_line. tauto.
Qed.

Lemma findall_group_line (line text rest : string) :
  ~ has_char newline text ->
  findall_uniproid (Group line) (text +:+ String newline rest) =
  (line +:+ text) :: findall_uniproid (Marker "UNIPROID") rest.
Proof.
  revert line. induction text as [|c text IH]; intros line Hnl.
  - rewrite append_nil_l, append_nil_r. done.
  - rewrite append_cons. cbn [findall_uniproid]. rewrite has_char_cons in Hnl.
    rewrite ascii_eqb_decide, bool_decide_eq_false_2 by naive_solver.
    rewrite IH by tauto. by rewrite append_assoc.
Qed.

Lemma findall_spaces (gap : string) (c : ascii) (text rest : string) :
  all_space gap -> is_space c = false ->
  ~ has_char newline text ->
  findall_uniproid Spaces (gap +:+ String c text +:+ String newline rest) =
  String c text :: findall_uniproid (Marker "UNIPROID") rest.
Proof.
  intros Hgap Hc Hnl. induction gap as [|g gap IH].
  - rewrite append_nil_l, append_cons. cbn [findall_uniproid]. rewrite Hc.
    by rewrite findall_group_line.
  - rewrite append_cons. cbn [findall_uniproid]. unfold all_space in Hgap. simpl in Hgap.
    apply Forall_cons_iff in Hgap as [-> Hgap]. by apply IH.
Qed.

Lemma findall_ids_line (gap : string) (c : ascii) (text rest : string) :
  gap <> "" -> all_space gap -> is_space c = false ->
  ~ has_char newline text ->
  findall_uniproid (Marker "UNIPROID")
    ("UNIPROID" +:+ gap +:+ String c text +:+ String newline rest) =
  String c text :: findall_uniproid (Marker "UNIPROID") rest.
Proof.
  intros Hne Hgap Hc Hnl. destruct gap as [|g gap]; [done|].
  repeat rewrite ?append_cons, ?append_nil_l. cbn [findall_uniproid].
  repeat (rewrite Ascii.eqb_refl; cbn [findall_uniproid]).
  unfold all_space in Hgap. simpl in Hgap.
  apply Forall_cons_iff in Hgap as [-> Hgap]. by apply findall_spaces.
Qed.

Lemma split_semicolon_app (piece text s : string) :
  ~ has_char semicolon text ->
  split_semicolon piece (text +:+ s) = split_semicolon (piece +:+ text) s.
Proof.
  revert piece. induction text as [|c text IH]; intros piece Hs.
  - by rewrite append_nil_l, append_nil_r.
  - rewrite append_cons. simpl. rewrite has_char_cons in Hs.
    rewrite ascii_eqb_decide, bool_decide_eq_false_2 by naive_solver.
    rewrite IH by tauto. by rewrite append_assoc.
Qed.

Lemma concat_cons2 (sep x y : string) (l : list string) :
  String.concat sep (x :: y :: l) = x +:+ sep +:+ String.concat sep (y :: l).
Proof. done. Qed.

Lemma split_semicolon_concat (names : list string) :
  names <> [] ->
  Forall (fun n => ~ has_char semicolon n) names ->
  split_semicolon "" (String.concat ";" names) = names.
Proof.
  intros Hne Hall. destruct names as [|n names]; [done|]. clear Hne.
  revert n Hall. induction names as [|n' names IH]; intros n Hall.
  - apply Forall_cons_iff in Hall as [Hn _]. simpl.
    rewrite <- (append_nil_r n) at 1.
    by rewrite split_semicolon_app.
  - apply Forall_cons_iff in Hall as [Hn Hall].
    rewrite concat_cons2, split_semicolon_app by done.
    rewrite append_cons, !append_nil_l. cbn [split_semicolon].
    change (Ascii.eqb ";"%char semicolon) with true. cbn iota.
    by rewrite IH.
Qed.

Lemma has_char_concat (c : ascii) (names : list string) :
  c <> semicolon ->
  Forall (fun n => ~ has_char c n) names ->
  ~ has_char c (String.concat ";" names).
Proof.
  intros Hc Hall. destruct names as [|n names]; [apply has_char_nil|].
  revert n Hall. induction names as [|n' names IH]; intros n Hall.
  - by apply Forall_cons_iff in Hall as [Hn _].
  - apply Forall_cons_iff in Hall as [Hn Hall].
    rewrite concat_cons2, !has_char_app. intros [H|[H|H]]; [done| |].
    + apply has_char_cons in H as [H|H]; [done | by apply has_char_nil in H].
    + by apply (IH n').
Qed.

Lemma fold_add_name_clean (names acc : list string) :
  Forall clean_name names ->
  fold_left add_name names acc = add_codes names acc.
Proof.
  revert acc. induction names as [|n names IH]; intros acc Hall; [done|].
  apply Forall_cons_iff in Hall as [(Hne & Hstrip & Hhdr & _) Hall].
  simpl. rewrite <- IH by done. f_equal. unfold add_name. rewrite Hstrip.
  destruct (String.eqb_spec n ""); [done|].
  destruct (String.eqb_spec (lower n) "uniprot id"); done.
Qed.

Lemma parse_rendered (lines : list ttd_line) (acc : list string) :
  Forall well_formed_line lines ->
  fold_left
    (fun names line => fold_left add_name (split_semicolon "" line) names)
    (findall_uniproid (Marker "UNIPROID") (render lines)) acc =
  add_codes (concat (line_names <$> lines)) acc.
Proof.
  revert acc. induction lines as [|l lines IH]; intros acc Hwf; [done|].
  apply Forall_cons_iff in Hwf as [Hl Hwf].
  change (render (l :: lines))
    with (render_line l +:+ String newline (render lines)).
  rewrite fmap_cons. cbn [concat].
  destruct l as [text|gap names]; cbn [render_line line_names] in *.
  - destruct Hl as [Hnl Hpre].
    rewrite findall_other_line; try done; [by apply IH|].
    unfold has_char. by vm_compute; intros H;
      repeat (apply elem_of_cons in H as [H|H]; [done|]);
      apply elem_of_nil in H.
  - destruct Hl as (Hgap & Hsp & Hne & Hclean).
    assert (Hsemi : Forall (fun n => ~ has_char semicolon n) names).
    { eapply Forall_impl; [|exact Hclean]. by intros n (_ & _ & _ & ? & _). }
    assert (Hnl : Forall (fun n => ~ has_char newline n) names).
    { eapply Forall_impl; [|exact Hclean]. by intros n (_ & _ & _ & _ & ?). }
    destruct names as [|n names]; [done|].
    assert (Hhead : exists c r, String.concat ";" (n :: names) = String c r /\
                                is_space c = false).
    { apply Forall_cons_iff in Hclean as [(Hn & Hstrip & _) _].
      destruct (strip_fixed_head n Hstrip Hn) as (c & r & -> & Hc).
      destruct names as [|n' names].
      - by exists c, r.
      - rewrite concat_cons2, append_cons. by eexists c, _. }
    destruct Hhead as (c & r & Hbody & Hc).
    assert (Hbnl : ~ has_char newline (String c r)).
    { rewrite <- Hbody. by apply has_char_concat. }
    rewrite append_assoc, Hbody, append_assoc.
    rewrite findall_ids_line by (try done; rewrite has_char_cons in Hbnl; tauto).
    cbn [fold_left]. rewrite IH by done. rewrite add_codes_app. f_equal.
    rewrite <- Hbody, split_semicolon_concat by done.
    by apply fold_add_name_clean.
Qed.

(** X10. Reading back what was written: for a file of lines that are
    either other content (no line of it starting with the marker) or the
    marker, a gap of whitespace and clean names between semicolons,
    [get_ttd_targets] returns the names of all marker lines, in the order
    of the file, each at its first occurrence; and [None] when the file
    names nothing. *)
Theorem targets_of_rendered_file (lines : list ttd_line) :
  Forall well_formed_line lines ->
  get_ttd_targets (Some (render lines)) =
  match add_codes (concat (line_names <$> lines)) [] with
  | [] => None
  | names => Some names
  end.
Proof.
  intros Hwf. simpl. unfold parse_targets. by rewrite parse_rendered.
Qed.

Lemma targets_of_rendered_file_witness :
  get_ttd_targets
    (Some (render [Other "TARGETID T1"; Ids " " ["A"; "B"; "A"];
                   Other ""; Ids "  " ["C"; "B"]])) =
  match add_codes (concat (line_names <$>
                     [Other "TARGETID T1"; Ids " " ["A"; "B"; "A"];
                      Other ""; Ids "  " ["C"; "B"]])) [] with
  | [] => None
  | names => Some names
  end.
Proof.
  apply targets_of_rendered_file.
  repeat constructor; try done;
    try (by unfold has_char; vm_compute; intros H;
           repeat (apply elem_of_cons in H as [H|H]; [done|]);
           apply elem_of_nil in H).
Defined.

(** X11. A marker with nothing behind it takes the next line: the
    whitespace the pattern asks for may be the line break itself, so after
    a line that holds the marker alone, the text of the following line is
    read as that line's names, whatever that line is. *)
Theorem bare_marker_takes_next_line (c : ascii) (text rest : string) :
  is_space c = false ->
  ~ has_char newline text ->
  findall_uniproid (Marker "UNIPROID")
    ("UNIPROID" +:+ String newline (String c text +:+ String newline rest)) =
  String c text :: findall_uniproid (Marker "UNIPROID") rest.
Proof.
  intros Hc Hnl.
  apply (findall_ids_line (String newline "") c text rest); try done.
  unfold all_space. by repeat constructor.
Qed.

Lemma bare_marker_takes_next_line_witness :
  findall_uniproid (Marker "UNIPROID")
    ("UNIPROID" +:+
     String newline ("TARGETID T1" +:+ String newline "UNIPROID A")) =
  "TARGETID T1" :: findall_uniproid (Marker "UNIPROID") "UNIPROID A".
Proof.
  apply (bare_marker_takes_next_line _ "ARGETID T1" "UNIPROID A");
    [reflexivity|].
  unfold has_char. vm_compute. intros H.
  repeat (apply elem_of_cons in H as [H|H]; [done|]).
  by apply elem_of_nil in H.
Defined.

(** ** The pipeline end to end *)




Lemma strings_of_elem (A : string) (codes : list value) :
  A ∈ strings_of codes <-> VStr A ∈ codes.
Proof.
  unfold strings_of. rewrite list_elem_of_omap. split.
  - intros (v & Hv & Hs). destruct v; try done. by injection Hs as ->.
  - intros Hv. by exists (VStr A).
Qed.



Lemma records_of_length (records : list value) (rs : list pdb_info) :
  records_of records = Ok rs -> length rs = length records.
Proof.
  revert rs. induction records as [|record rest IH]; intros rs; simpl.
  - by intros [= <-].
  - destruct (record_of record) as [r|]; [|done]. simpl.
    destruct (records_of rest) as [rs'|]; [|done]. simpl.
    intros [= <-]. simpl. by rewrite (IH rs').
Qed.

Lemma store_of_elem (records : list pdb_info) (r : pdb_info) :
  r ∈ records ->
  exists c, c ∈ seq 0 (length records) /\ store_of records c = r.
Proof.
  intros Hr. apply list_elem_of_lookup_1 in Hr as [c Hc].
  exists c. split.
  - apply elem_of_seq. split; [lia|]. simpl.
    by apply lookup_lt_Some in Hc.
  - unfold store_of. by apply nth_lookup_Some.
Qed.

(** X13. Nothing that qualifies is lost on the way: when the stages of
    [main] give the names, the accessions, the mapping and the accepted
    records, and one of these records is filed under an accession, then
    [main] reaches the download with a structure for that accession, and
    its resolution is no worse than that record's. *)
Theorem pipeline_complete (w : world) (names : list string)
    (codes : list value) (table : list row)
    (uniprot_map : list (string * list string)) (accepted : list value)
    (records : list pdb_info) (r : pdb_info) (A : string) :
  get_ttd_targets (ttd w) = Some names ->
  convert_uniprot_ids (uniprot w) (entry_order w names) = Ok codes ->
  sifts w = Some table ->
  get_sifts_mapping (Some table) (strings_of codes) = Some uniprot_map ->
  filter_pdbs_by_quality (rcsb w)
    (pdb_order w (add_codes (concat uniprot_map.*2) [])) = Ok accepted ->
  records_of accepted = Ok records ->
  r ∈ records ->
  accession_of (pdb_to_uniprot_map uniprot_map) r = Some A ->
  exists best h b,
    main_pipeline w = Ok (Selected best h) /\
    b ∈ best /\ uniprot_id (h b) = Some A /\
    (resolution (h b) <= resolution r)%Q.
Proof.
  intros Hnames Hcodes Htable Hmap Hfilter Hrecords Hr HA.
  set (l := seq 0 (length records)).
  set (result := group_and_select_best_structures (store_of records) l
                   uniprot_map).
  destruct (store_of_elem records r Hr) as (c & Hc & Hrc).
  rewrite <- Hrc in HA.
  destruct (selected_complete (store_of records) l uniprot_map c A Hc HA)
    as (b & Hb & Hbest).
  fold result in Hb.
  (* the stages do not stop *)
  assert (Hitem : exists pdbs, (A, pdbs) ∈ uniprot_map).
  { unfold accession_of in HA.
    destruct (pdb_to_uniprot_map uniprot_map !! _) as [u|] eqn:Hidx; [|done].
    destruct (String.eqb u ""); [done|]. injection HA as ->.
    apply pdb_to_uniprot_map_Some in Hidx as (pdbs & _ & Hitem & _).
    by exists pdbs. }
  destruct Hitem as [pdbs Hitem].
  assert (Hcode : VStr A ∈ codes).
  { apply strings_of_elem. simpl in Hmap. injection Hmap as Hmap.
    rewrite <- Hmap in Hitem.
    apply dict_get_elem_of in Hitem;
      [|rewrite groupby_keys; apply sorted_NoDup, sorted_keys_sorted].
    by apply mapping_lookup in Hitem as [? _]. }
  exists result.1, result.2, b. split; [|split; [done|split]].
  - unfold main_pipeline. rewrite Hnames, Hcodes. simpl.
    assert (stops_main codes = false) as ->.
    { destruct codes; [by apply elem_of_nil in Hcode | done]. }
    rewrite Htable, Hmap.
    destruct uniprot_map as [|item m]; [by apply elem_of_nil in Hitem|].
    rewrite Hfilter. simpl.
    destruct accepted as [|a accepted].
    { simpl in Hrecords. injection Hrecords as <-.
      by apply elem_of_nil in Hr. }
    rewrite Hrecords. simpl. fold l. fold result.
    destruct result.1 as [|b0 bs] eqn:Hout; [by apply elem_of_nil in Hb|].
    done.
  - destruct (selected_spec _ _ _ b Hb) as (u & Hu & _ & Hset).
    apply best_in_group in Hbest as [_ Hacc].
    rewrite Hacc in Hu. injection Hu as <-.
    fold result in Hset. by rewrite Hset.
  - destruct (selector_fields (store_of records) l uniprot_map b)
      as (_ & _ & Hres).
    fold result in Hres. rewrite Hres, <- Hrc.
    apply select_best_structure_first_min in Hbest
      as (l1 & l2 & Hsplit & H1 & H2).
    assert (Hin : c ∈ l1 ++ b :: l2).
    { rewrite <- Hsplit. by apply list_elem_of_filter. }
    rewrite Forall_forall in H1, H2.
    apply elem_of_app in Hin as [Hin|Hin].
    + apply Qlt_le_weak. apply H1. by apply list_elem_of_In.
    + apply elem_of_cons in Hin as [->|Hin]; [apply Qle_refl|].
      apply H2. by apply list_elem_of_In.
Qed.

Lemma pipeline_complete_witness :
  exists best h b,
    main_pipeline sample_world = Ok (Selected best h) /\
    b ∈ best /\ uniprot_id (h b) = Some "X1" /\
    (resolution (h b) <= 3 # 2)%Q.
Proof.
  eapply (pipeline_complete sample_world _ _ _ _ _ _
            {| pdb_id := "S1"; method := "X-RAY DIFFRACTION";
               resolution := (3 # 2)%Q; uniprot_id := None |} "X1").
  - reflexivity.
  - reflexivity.
  - reflexivity.
  - reflexivity.
  - reflexivity.
  - reflexivity.
  - apply list_elem_of_here.
  - reflexivity.
Defined.

(** ** Downloader *)

Lemma download_loop_rows (m : host) (h : heap) (output_dir : string)
    (best : list loc) :
  forall n fs log_data fs' log_data',
    download_loop m h output_dir n best fs log_data = (fs', Logged log_data') ->
    exists rows,
      log_data' = log_data ++ rows /\ length rows = length best /\
      forall i b, best !! i = Some b ->
        exists u row,
          uniprot_id (h b) = Some u /\ rows !! i = Some row /\
          UniProt_ID row = u /\ PDB_ID row = pdb_id (h b) /\
          Resolution row = resolution (h b) /\ Method row = method (h b) /\
          (Status row = "Downloaded" <->
           is_Some (fetched (get m (n + i) (download_url (pdb_id (h b)))))) /\
          Filename row =
            match fetched (get m (n + i) (download_url (pdb_id (h b)))) with
            | Some _ => new_filename u (pdb_id (h b))
            | None => ""
            end.
Proof.
  induction best as [|b best IH]; intros n fs log_data fs' log_data'; simpl.
  - intros [= <- <-]. exists []. by rewrite app_nil_r.
  - destruct (uniprot_id (h b)) as [u|] eqn:Hu; [|done].
    set (url := download_url (pdb_id (h b))).
    set (name := new_filename u (pdb_id (h b))).
    assert (Hstep : forall fs1 row,
      download_loop m h output_dir (S n) best fs1 (log_data ++ [row])
        = (fs', Logged log_data') ->
      UniProt_ID row = u /\ PDB_ID row = pdb_id (h b) /\
      Resolution row = resolution (h b) /\ Method row = method (h b) /\
      (Status row = "Downloaded" <-> is_Some (fetched (get m n url))) /\
      Filename row = match fetched (get m n url) with
                     | Some _ => name | None => "" end ->
      exists rows,
        log_data' = log_data ++ rows /\ length rows = S (length best) /\
        forall i b', (b :: best) !! i = Some b' ->
          exists u' row',
            uniprot_id (h b') = Some u' /\ rows !! i = Some row' /\
            UniProt_ID row' = u' /\ PDB_ID row' = pdb_id (h b') /\
            Resolution row' = resolution (h b') /\
            Method row' = method (h b') /\
            (Status row' = "Downloaded" <->
             is_Some (fetched (get m (n + i)
                                 (download_url (pdb_id (h b')))))) /\
            Filename row' =
              match fetched (get m (n + i) (download_url (pdb_id (h b'))))
              with
              | Some _ => new_filename u' (pdb_id (h b'))
              | None => ""
              end).
    { intros fs1 row Hrun Hrow.
      apply IH in Hrun as (rows & -> & Hlen & Hrows).
      exists (row :: rows). rewrite <- app_assoc. split; [done|].
      split; [simpl; by rewrite Hlen|].
      intros [|i] b' Hb'; simpl in Hb'.
      - injection Hb' as <-. exists u, row. rewrite Nat.add_0_r.
        by split.
      - destruct (Hrows i b' Hb') as (u' & row' & H').
        exists u', row'. by rewrite Nat.add_succ_r. }
    destruct (get m n url) as [|status_code text] eqn:Hget.
    + intros Hrun. apply (Hstep _ _ Hrun). simpl.
      repeat split; first [done | by intros [? ?]].
    + simpl in Hstep. destruct (Nat.eqb status_code 200) eqn:Hcode.
      * destruct (open_w m n _); [|done].
        intros Hrun. apply (Hstep _ _ Hrun). simpl. repeat split; done.
      * intros Hrun. apply (Hstep _ _ Hrun). simpl.
        repeat split;
          first [done | by intros [? ?] | by rewrite !append_cons].
Qed.



Lemma download_loop_no_key_error (m : host) (h : heap) (output_dir : string)
    (best : list loc) :
  (forall b, b ∈ best -> is_Some (uniprot_id (h b))) ->
  forall n fs log_data e,
    (download_loop m h output_dir n best fs log_data).2 <> Raised e.
Proof.
  induction best as [|b best IH]; intros Hall n fs log_data e; simpl; [done|].
  destruct (Hall b) as [u ->]; [set_solver|].
  assert (Hrest : forall b', b' ∈ best -> is_Some (uniprot_id (h b')))
    by (intros b' Hb'; apply Hall; set_solver).
  destruct (get m n _) as [|status_code text]; [by apply IH|].
  destruct (Nat.eqb status_code 200); [|by apply IH].
  destruct (open_w m n _); [by apply IH | done].
Qed.

(** *** File names *)









(** X14. A run of the download that returns has logged one row for each
    selected structure, in their order and with the record's fields,
    whatever became of the request: the row says Downloaded, and names
    the file, exactly when the request was answered with status 200.  With
    at least one structure the log file holds these rows. *)
Theorem download_logs_every_structure (m : host) (h : heap)
    (best_pdb_list : list loc) (output_dir : string) (d d' : disk)
    (log_data : list log_row) :
  download_pdb_files m h best_pdb_list output_dir d = (d', Logged log_data) ->
  length log_data = length best_pdb_list /\
  (best_pdb_list <> [] -> log_file d' = Some log_data) /\
  forall i b, best_pdb_list !! i = Some b ->
    exists u row,
      uniprot_id (h b) = Some u /\ log_data !! i = Some row /\
      UniProt_ID row = u /\ PDB_ID row = pdb_id (h b) /\
      Resolution row = resolution (h b) /\ Method row = method (h b) /\
      (Status row = "Downloaded" <->
       is_Some (fetched (get m i (download_url (pdb_id (h b)))))) /\
      Filename row =
        match fetched (get m i (download_url (pdb_id (h b)))) with
        | Some _ => new_filename u (pdb_id (h b))
        | None => ""
        end.
Proof.
  unfold download_pdb_files. destruct (makedirs m output_dir); [|done].
  destruct (download_loop _ _ _ _ _ _ _) as [fs r] eqn:Hloop.
  destruct r as [rows| |]; [|done..].
  apply download_loop_rows in Hloop as (rows' & Hrows & Hlen & Hall).
  simpl in Hrows. subst rows'. intros Hrun.
  assert (Hlog : log_data = rows /\
                 (rows <> [] -> log_file d' = Some log_data)).
  { destruct rows as [|row rows]; [by injection Hrun as <- <-|].
    destruct (to_csv m _); [|done]. by injection Hrun as <- <-. }
  destruct Hlog as [-> Hfile]. split; [done|]. split; [|done].
  intros Hne. apply Hfile. intros ->. by destruct best_pdb_list.
Qed.

Lemma download_logs_every_structure_witness :
  length sample_log = 4 /\ log_file sample_run.1 = Some sample_log.
Proof.
  assert (Hrun : download_pdb_files sample_host sample_best [0; 1; 2; 3]
                   RAW_DOWNLOAD_DIR empty_disk
                 = (sample_run.1, Logged sample_log))
    by (vm_compute; reflexivity).
  destruct (download_logs_every_structure _ _ _ _ _ _ _ Hrun)
    as (Hlen & Hfile & _).
  split; [exact Hlen | by apply Hfile].
Defined.



(** X16. The download never fails for a missing accession on what the
    selector hands over: on the list and store of
    [group_and_select_best_structures] no run raises at line 243,
    whatever the machine does. *)
Theorem download_after_selection (h : heap)
    (high_quality_pdb_list : list loc)
    (uniprot_map : list (string * list string)) (m : host)
    (output_dir : string) (d : disk) (e : exn) :
  let result :=
    group_and_select_best_structures h high_quality_pdb_list uniprot_map in
  (download_pdb_files m result.2 result.1 output_dir d).2 <> Raised e.
Proof.
  intros result. unfold download_pdb_files.
  destruct (makedirs m output_dir); [|done].
  pose proof (download_loop_no_key_error m result.2 output_dir result.1)
    as Hloop.
  destruct (download_loop _ _ _ _ _ _ _) as [fs r] eqn:Hrun.
  assert (Hr : r <> Raised e).
  { intros ->. eapply (Hloop _ 0 (files d) [] e). by rewrite Hrun. }
  destruct r as [[|row rows]| |]; try done. by destruct (to_csv m _).
  Unshelve.
  intros b Hb.
  destruct (selected_spec h high_quality_pdb_list uniprot_map b Hb)
    as (u & _ & _ & Hset).
  fold result in Hset. rewrite Hset. by eexists.
Qed.

(** ** Resolver *)

Lemma convert_batches_app (get : nat -> params -> reply)
    (s1 s2 : list (list string)) (n : nat) (acc : list value) :
  convert_batches get n (s1 ++ s2) acc =
  convert_batches get n s1 acc ≫= convert_batches get (n + length s1) s2.
Proof.
  revert n acc. induction s1 as [|names s1 IH]; intros n acc; simpl.
  - by replace (n + 0) with n by lia.
  - rewrite bind_assoc. apply bind_ext. intros acc'.
    rewrite IH. by replace (S n + length s1) with (n + S (length s1)) by lia.
Qed.

(** X17. A null where the results should be ends the run: when a search
    is answered with an object whose [results] is null, line 134 raises a
    [TypeError] that no [except] clause catches, and the accessions of the
    batches before it are not returned. *)
Theorem resolver_null_results_raises (get : nat -> params -> reply)
    (entry_list : list string) (k : nat) (names : list string)
    (body : list (string * value)) (founds : list (list string)) :
  batches 100 entry_list !! k = Some names ->
  length founds = k ->
  (forall n ns found,
      batches 100 entry_list !! n = Some ns -> founds !! n = Some found ->
      search_outcome
        (get n (search_params (filter (fun name => name <> "") ns))) found) ->
  get k (search_params (filter (fun name => name <> "") names))
    = Json (VDict body) ->
  assoc "results" body = Some VNone ->
  convert_uniprot_ids get entry_list = Raise TypeError.
Proof.
  intros Hk Hlen Hbefore Hreply Hnull. unfold convert_uniprot_ids.
  rewrite <- (take_drop_middle _ _ _ Hk), convert_batches_app.
  change (@nil value) with (VStr <$> []).
  rewrite (convert_batches_outcomes get _ founds 0 []).
  - simpl. rewrite length_take_le by (apply lookup_lt_Some in Hk; lia).
    rewrite Hreply. simpl. by rewrite Hnull.
  - rewrite length_take_le; [done|]. apply lookup_lt_Some in Hk. lia.
  - intros i ns found Hns Hf. simpl. apply Hbefore; [|done].
    apply lookup_take_Some in Hns. by destruct Hns.
Qed.

Lemma resolver_null_results_raises_witness :
  convert_uniprot_ids late_null_get (replicate 101 "EGFR_HUMAN")
  = Raise TypeError.
Proof.
  apply (resolver_null_results_raises late_null_get _ 1 ["EGFR_HUMAN"]
           [("results", VNone)] [["P00533"]]).
  - vm_compute. reflexivity.
  - reflexivity.
  - intros n ns found Hns Hf. destruct n as [|n]; [|done].
    vm_compute in Hf. simplify_eq.
    eapply search_answered; [reflexivity..|].
    repeat econstructor.
  - reflexivity.
  - reflexivity.
Defined.
